(** * BoM radar proxy: the retrieval-and-freshness cache

    A shallow embedding of the caching core of [src/server.js] (the
    resolution-aware add-on server) and of the stand-alone [server.js] that
    preceded it: the image store ([getRadarImage]), the timestamp listing with
    its refresh limiter ([listAvailableTimestamps]) and the two janitor sweeps
    ([cleanupCache], [checkCacheSize]).

    Conventions.
    - [Date.now()] and [stats.mtimeMs] are integers (milliseconds); every
      quotient the code takes ([x / 1000], [x / 1024 / 1024], [m * 0.8]) is an
      exact rational.  The double-precision results compare the same way
      against the integers they are compared with.
    - One call reads the clock once: [now] is an argument.  Where a
      property hangs on the distance between two readings (the cached set
      and the limiter entry that one listing writes), the readings are
      arguments of their own.
    - A call runs without interleaving with other calls; [checkCacheSize ()],
      which [getRadarImage] starts without awaiting it, is recorded as started
      and is a step of its own, and so is the periodic check of node-cache.
    - The cache directory is a finite map from file names to files;
      [path.join (CACHE_DIR, name)] is identified with [name]. *)

From Stdlib Require Import ZArith QArith Qround String Ascii Bool.
From stdpp Require Import base option list sorting gmap strings pretty.

Open Scope Z_scope.

(** ** JavaScript values *)

(** An [Error]: its message and, for FTP replies, the numeric reply code. *)
Record JsError := mkError { message : string; code : option Z }.

Definition Error (msg : string) : JsError := mkError msg None.

(** [a || b] on a number that may be [NaN] ([None]): [0] and [NaN] are falsy. *)
Definition js_or (a : option Z) (b : Z) : Z :=
  match a with
  | Some 0 | None => b
  | Some n => n
  end.

(** [x / 1000] for a millisecond count. *)
Definition seconds (ms : Z) : Q := ms # 1000.

Definition Qlt_bool (a b : Q) : bool := negb (Qle_bool b a).

(** [a < b] where [a] may be [NaN]: every comparison with [NaN] is false. *)
Definition js_lt (a : option Q) (b : Q) : bool :=
  match a with
  | Some x => Qlt_bool x b
  | None => false
  end.

(** [Math.floor], [NaN] preserved. *)
Definition js_floor (a : option Q) : option Z := Qfloor <$> a.

Definition digit_of (c : ascii) : option Z :=
  let n := Z.of_N (N_of_ascii c) in
  if (48 <=? n) && (n <=? 57) then Some (n - 48) else None.

Fixpoint parseDigits (s : string) (acc : option Z) : option Z :=
  match s with
  | EmptyString => acc
  | String c s' =>
      match digit_of c with
      | Some d => parseDigits s' (Some (match acc with Some a => a * 10 + d | None => d end))
      | None => acc
      end
  end.

(** [parseInt] on the strings the server gives it (slices of a timestamp):
    the leading decimal digits, [NaN] when there is none. *)
Definition parseInt (s : string) : option Z := parseDigits s None.

(** [s.substring (from, to)]. *)
Definition substring (from to : nat) (s : string) : string :=
  String.substring from (to - from) s.

(** [s.endsWith (suffix)]. *)
Definition endsWith (s suffix : string) : bool :=
  let n := String.length s in
  let k := String.length suffix in
  (k <=? n)%nat && String.eqb (String.substring (n - k) k s) suffix.

(** ** The host: buffers, the local calendar and the process environment *)

(** The three settings read from [process.env], each already through
    [parseInt] ([None] when unset or not a number). *)
Record ProcessEnv := mkEnv {
  env_TIMESTAMP_REFRESH_INTERVAL : option Z;
  env_CACHE_TTL_HOURS : option Z;
  env_MAX_CACHE_SIZE_MB : option Z
}.

(** A file of the cache directory. *)
Record File (Buffer : Type) := mkFile { content : Buffer; mtimeMs : Z }.
Arguments mkFile {Buffer} _ _.
Arguments content {Buffer} _.
Arguments mtimeMs {Buffer} _.

(** What the server takes from Node: the [Buffer] type with [length] and
    [Buffer.concat], [new Date (y, m, d, h, min).getTime ()] in the host's
    time zone, the environment of the process, and the way a
    [fs.writeFile (path, data)] at some time fails when it does: the error
    it rejects with, and what is found at the path afterwards, given what
    was there before (the old file, no file, or a file holding whatever had
    been written by then). *)
Class Host (Buffer : Type) := {
  Buffer_length : Buffer -> Z;
  Buffer_concat : list Buffer -> Buffer;
  Date_getTime : Z -> Z -> Z -> Z -> Z -> Z;
  process_env : ProcessEnv;
  writeFile_error : string -> Buffer -> Z -> JsError;
  writeFile_remains : string -> option (File Buffer) -> Buffer -> Z -> option (File Buffer)
}.

(** ** The file system under [CACHE_DIR] *)

Record Stats := mkStats { st_size : Z; st_mtimeMs : Z }.

Inductive FsOp := Stat | Unlink | ReadFile | WriteFile.

(** Which calls fail for a reason of the file system's own (permissions, I/O):
    [flt op name = true] makes [op] on [name] reject. *)
Definition Faults := FsOp -> string -> bool.

Definition no_faults : Faults := fun _ _ => false.

(** ** The FTP origin *)

Inductive ConnectOutcome :=
  | Ready
  | ConnectError (e : JsError)
  | NoAnswer.

(** [client.get]: refused with an error, or a stream that delivers chunks and
    then ends ([None]) or breaks ([Some e]). *)
Inductive GetOutcome (Buffer : Type) :=
  | GetError (e : JsError)
  | GetStream (chunks : list Buffer) (fin : option JsError).
Arguments GetError {Buffer} _.
Arguments GetStream {Buffer} _ _.

Record ListItem := mkItem { type : string; name : string }.

Record Ftp (Buffer : Type) := mkFtp {
  ftp_connect : ConnectOutcome;
  ftp_get : string -> GetOutcome Buffer;
  ftp_list : string -> JsError + list ListItem
}.
Arguments mkFtp {Buffer} _ _ _.
Arguments ftp_connect {Buffer} _.
Arguments ftp_get {Buffer} _ _.
Arguments ftp_list {Buffer} _ _.

(** ** Results *)

Record RadarImage (Buffer : Type) := mkImage {
  buffer : Buffer;
  fromCache : bool;
  cacheAge : Z;
  imageAge : option Z;
  resolution : Z
}.
Arguments mkImage {Buffer} _ _ _ _ _.
Arguments buffer {Buffer} _.
Arguments fromCache {Buffer} _.
Arguments cacheAge {Buffer} _.
Arguments imageAge {Buffer} _.
Arguments resolution {Buffer} _.

(** node-cache keeps, with each value, the instant [t] after which it has
    expired ([0]: never). *)
Record CacheEntry := mkEntry { value : list string; t : Z }.

(** The in-memory state of the listing: [metaCache] and the
    [lastTimestampRefresh] map. *)
Record Meta := mkMeta {
  metaCache : gmap string CacheEntry;
  lastTimestampRefresh : gmap string Z
}.

(** The object [listAvailableTimestamps] resolves with; [rateLimited] is
    [None] where the object has no such property. *)
Record Listing := mkListing {
  timestamps : list string;
  listFromCache : bool;
  nextRefreshIn : Z;
  rateLimited : option bool
}.

(** One [listAvailableTimestamps] call: the value or error, the state left,
    and how often the origin was contacted ([connectFTP]). *)
Record ListResult := mkList {
  answer : JsError + Listing;
  meta_after : Meta;
  connections : nat
}.

(** An element of [fileStats] in [checkCacheSize]. *)
Record FileStat := mkFileStat { path : string; size_ : Z; mtime : Z }.

(** What one sweep leaves behind: the cache directory, the counters
    [deleted] and [freedSpace], and in [caught] the file at which a rejection
    sent control to the sweep's [catch] block. *)
Record Sweep (Buffer : Type) := mkSweep {
  swept : gmap string (File Buffer);
  deleted : Z;
  freedSpace : Z;
  caught : option string
}.
Arguments mkSweep {Buffer} _ _ _ _.
Arguments swept {Buffer} _.
Arguments deleted {Buffer} _.
Arguments freedSpace {Buffer} _.
Arguments caught {Buffer} _.

(** What one [getRadarImage] call leaves behind: the value returned or the
    error thrown, the cache directory, how often [downloadFromFTP] was
    called, and whether [checkCacheSize ()] was started. *)
Record GetResult (Buffer : Type) := mkGet {
  returned : JsError + RadarImage Buffer;
  disk_after : gmap string (File Buffer);
  downloads : nat;
  sizeCheckStarted : bool
}.
Arguments mkGet {Buffer} _ _ _ _.
Arguments returned {Buffer} _.
Arguments disk_after {Buffer} _.
Arguments downloads {Buffer} _.
Arguments sizeCheckStarted {Buffer} _.

(** The outcome of the first [try] block of [getRadarImage]. *)
Inductive CacheCheck (Buffer : Type) :=
  | CacheHit (r : RadarImage Buffer)
  | CacheMiss (d : gmap string (File Buffer)).
Arguments CacheHit {Buffer} _.
Arguments CacheMiss {Buffer} _.

Section Server.

Context {Buffer : Type} `{host : Host Buffer}.

Abbreviation Disk := (gmap string (File Buffer)).

(** *** Constants *)

Definition FTP_PATH : string := "/anon/gen/radar/".
Definition TIMESTAMP_REFRESH_INTERVAL : Z :=
  js_or (env_TIMESTAMP_REFRESH_INTERVAL process_env) 600 * 1000.
Definition CURRENT_IMAGE_REFRESH_INTERVAL : Z := 600000.
Definition CURRENT_IMAGE_THRESHOLD : Z := 1800.
Definition DISK_CACHE_TTL : Z := js_or (env_CACHE_TTL_HOURS process_env) 24 * 3600.
Definition MAX_CACHE_SIZE_MB : Z := js_or (env_MAX_CACHE_SIZE_MB process_env) 1000.

Definition RESOLUTION_SUFFIX (resolution : Z) : option string :=
  match resolution with
  | 64 => Some "1"
  | 128 => Some "2"
  | 256 => Some "3"
  | 512 => Some "4"
  | _ => None
  end%string.

Definition SUPPORTED_RESOLUTIONS : list Z := [64; 128; 256].

Definition includes (l : list Z) (x : Z) : bool := existsb (Z.eqb x) l.

(** *** fs.promises *)

Definition fs_stat (flt : Faults) (d : Disk) (p : string) : option Stats :=
  if flt Stat p then None
  else (fun f => mkStats (Buffer_length (content f)) (mtimeMs f)) <$> d !! p.

Definition fs_unlink (flt : Faults) (d : Disk) (p : string) : option Disk :=
  if flt Unlink p then None
  else match d !! p with
       | Some _ => Some (delete p d)
       | None => None
       end.

Definition fs_readFile (flt : Faults) (d : Disk) (p : string) : option Buffer :=
  if flt ReadFile p then None else content <$> d !! p.

(** A write that goes through replaces the file as a whole and stamps it
    with the time of the write; one that rejects hands over its error and
    may have changed the file it was writing, and no other. *)
Definition fs_writeFile (flt : Faults) (d : Disk) (p : string) (data : Buffer) (now : Z)
  : JsError * Disk + Disk :=
  if flt WriteFile p
  then inl (writeFile_error p data now,
            partial_alter (fun old => writeFile_remains p old data now) p d)
  else inr (<[p := mkFile data now]> d).

(** *** parseTimestamp *)

Definition parseTimestamp (timestamp : string) : option Z :=
  year ← parseInt (substring 0 4 timestamp);
  month ← (fun m => m - 1) <$> parseInt (substring 4 6 timestamp);
  day ← parseInt (substring 6 8 timestamp);
  hour ← parseInt (substring 8 10 timestamp);
  minute ← parseInt (substring 10 12 timestamp);
  Some (Date_getTime year month day hour minute).

(** *** buildRadarUrl, connectFTP, downloadFromFTP *)

Definition buildRadarUrl (radarId timestamp : string) (resolution : Z)
  : JsError + (string * string) :=
  match RESOLUTION_SUFFIX resolution with
  | None => inl (Error ("Invalid resolution: " +:+ pretty resolution))
  | Some suffix =>
      let filename := radarId +:+ suffix +:+ ".T." +:+ timestamp +:+ ".png" in
      let remotePath := FTP_PATH +:+ filename in
      inr (filename, remotePath)
  end.

Definition connectFTP (ftp : Ftp Buffer) : JsError + unit :=
  match ftp_connect ftp with
  | Ready => inr tt
  | ConnectError e => inl e
  | NoAnswer => inl (Error "FTP connection timeout")
  end.

Definition downloadFromFTP (ftp : Ftp Buffer) (radarId timestamp : string) (resolution : Z)
  : JsError + Buffer :=
  match connectFTP ftp with
  | inl e => inl e
  | inr _ =>
      match buildRadarUrl radarId timestamp resolution with
      | inl e => inl e
      | inr (_, remotePath) =>
          match ftp_get ftp remotePath with
          | GetError e => inl e
          | GetStream chunks None => inr (Buffer_concat chunks)
          | GetStream chunks (Some e) => inl e
          end
      end
  end.

(** *** getRadarImage *)

Definition imageCacheKey (radarId timestamp : string) (resolution : Z) : string :=
  radarId +:+ "_" +:+ timestamp +:+ "_" +:+ pretty resolution.

Definition imageCachePath (radarId timestamp : string) (resolution : Z) : string :=
  imageCacheKey radarId timestamp resolution +:+ ".png".

(** [(Date.now () - timestampDate.getTime ()) / 1000]. *)
Definition imageAgeAt (now : Z) (timestamp : string) : option Q :=
  (fun t => seconds (now - t)) <$> parseTimestamp timestamp.

Definition isCurrentAt (now : Z) (timestamp : string) : bool :=
  js_lt (imageAgeAt now timestamp) (inject_Z CURRENT_IMAGE_THRESHOLD).

(** The first [try] block: every rejection inside it lands in its [catch],
    which goes on to the download with the directory as it is by then. *)
Definition cacheCheck (flt : Faults) (d : Disk) (now : Z)
    (radarId timestamp : string) (resolution : Z) : CacheCheck Buffer :=
  let cachePath := imageCachePath radarId timestamp resolution in
  let imageAge := imageAgeAt now timestamp in
  let isCurrent := isCurrentAt now timestamp in
  match fs_stat flt d cachePath with
  | None => CacheMiss d
  | Some stats =>
      let fileCacheAge := seconds (now - st_mtimeMs stats) in
      if Qle_bool (inject_Z DISK_CACHE_TTL) fileCacheAge then
        match fs_unlink flt d cachePath with
        | Some d' => CacheMiss d'
        | None => CacheMiss d
        end
      else if negb isCurrent || js_lt imageAge (seconds CURRENT_IMAGE_REFRESH_INTERVAL) then
        match fs_readFile flt d cachePath with
        | Some buf =>
            CacheHit (mkImage buf true (Qfloor fileCacheAge) (js_floor imageAge) resolution)
        | None => CacheMiss d
        end
      else
        match fs_unlink flt d cachePath with
        | Some d' => CacheMiss d'
        | None => CacheMiss d
        end
  end.

(** The second [try] block: download, write, start the size check. *)
Definition downloadAndStore (flt : Faults) (ftp : Ftp Buffer) (d : Disk) (now : Z)
    (radarId timestamp : string) (resolution : Z) : GetResult Buffer :=
  let cachePath := imageCachePath radarId timestamp resolution in
  match downloadFromFTP ftp radarId timestamp resolution with
  | inl e => mkGet (inl e) d 1 false
  | inr buf =>
      match fs_writeFile flt d cachePath buf now with
      | inl (error, d') => mkGet (inl error) d' 1 false
      | inr d' =>
          mkGet (inr (mkImage buf false 0 (js_floor (imageAgeAt now timestamp)) resolution))
                d' 1 true
      end
  end.

Definition getRadarImage (flt : Faults) (ftp : Ftp Buffer) (d : Disk) (now : Z)
    (radarId timestamp : string) (resolution : Z) : GetResult Buffer :=
  if negb (includes SUPPORTED_RESOLUTIONS resolution) then
    mkGet (inl (Error ("Unsupported resolution: " +:+ pretty resolution
                       +:+ ". Supported: 64, 128, 256")))
          d 0 false
  else
    match cacheCheck flt d now radarId timestamp resolution with
    | CacheHit r => mkGet (inr r) d 0 false
    | CacheMiss d1 => downloadAndStore flt ftp d1 now radarId timestamp resolution
    end.

(** *** The refresh limiter *)

(** [!lastRefresh]: the entry is missing, or it is the number [0]. *)
Definition falsy (lastRefresh : option Z) : bool :=
  match lastRefresh with
  | None | Some 0 => true
  | Some _ => false
  end.

Definition canRefreshTimestamps (st : Meta) (now : Z) (radarId : string) : bool :=
  let lastRefresh := lastTimestampRefresh st !! radarId in
  if falsy lastRefresh then true
  else
    let timeSinceLastRefresh := now - default 0 lastRefresh in
    TIMESTAMP_REFRESH_INTERVAL <=? timeSinceLastRefresh.

Definition updateTimestampRefreshTime (st : Meta) (now : Z) (radarId : string) : Meta :=
  mkMeta (metaCache st) (<[radarId := now]> (lastTimestampRefresh st)).

Definition getTimeUntilNextRefresh (st : Meta) (now : Z) (radarId : string) : Z :=
  let lastRefresh := lastTimestampRefresh st !! radarId in
  if falsy lastRefresh then 0
  else
    let timeSinceLastRefresh := now - default 0 lastRefresh in
    let timeRemaining := TIMESTAMP_REFRESH_INTERVAL - timeSinceLastRefresh in
    Z.max 0 (Qceiling (seconds timeRemaining)).

(** *** metaCache (node-cache, [stdTTL = TIMESTAMP_REFRESH_INTERVAL / 1000]) *)

(** [metaCache.get (key)]: the value unless the entry has expired, and the
    state the call leaves: an entry it finds expired is deleted on the spot
    (node-cache's [deleteOnExpire], which is on unless switched off). *)
Definition metaCache_get (st : Meta) (now : Z) (key : string)
  : option (list string) * Meta :=
  match metaCache st !! key with
  | Some e =>
      if negb (t e =? 0) && (t e <? now)
      then (None, mkMeta (delete key (metaCache st)) (lastTimestampRefresh st))
      else (Some (value e), st)
  | None => (None, st)
  end.

(** [metaCache.set (key, value)]: the entry lives [stdTTL] seconds, that is
    [TIMESTAMP_REFRESH_INTERVAL] milliseconds. *)
Definition metaCache_set (st : Meta) (now : Z) (key : string) (v : list string) : Meta :=
  mkMeta (<[key := mkEntry v (now + TIMESTAMP_REFRESH_INTERVAL)]> (metaCache st))
         (lastTimestampRefresh st).

(** node-cache's periodic check ([checkperiod: 120]): every entry found
    expired is deleted. *)
Definition metaCache_checkData (st : Meta) (now : Z) : Meta :=
  mkMeta (filter (fun entry => negb (t entry.2 =? 0) && (t entry.2 <? now) = false)
            (metaCache st))
         (lastTimestampRefresh st).

(** *** listAvailableTimestamps *)

Definition isDigit (c : ascii) : bool := bool_decide (is_Some (digit_of c)).

Fixpoint allDigits (s : string) : bool :=
  match s with
  | EmptyString => true
  | String c s' => isDigit c && allDigits s'
  end.

(** [name.match (pattern)[1]] for the pattern
    [^${radarId}${suffix}\.T\.(\d{12})\.png$]; the identifiers the routes
    let through (IDR and three digits) stand for themselves in it. *)
Definition matchTimestamp (radarId suffix name : string) : option string :=
  let pre := radarId +:+ suffix +:+ ".T." in
  let k := String.length pre in
  let ts := String.substring k 12 name in
  if (String.length name =? k + 16)%nat
     && String.eqb (String.substring 0 k name) pre
     && allDigits ts
     && String.eqb (String.substring (k + 12) 4 name) ".png"
  then Some ts else None.

Fixpoint insertString (x : string) (l : list string) : list string :=
  match l with
  | [] => [x]
  | y :: l' => if String.leb x y then x :: l else y :: insertString x l'
  end.

(** [Array.prototype.sort] without a comparator, on strings. *)
Definition sortStrings (l : list string) : list string := foldr insertString [] l.

(** [l.slice (0, n)]. *)
Definition slice0 {A : Type} (l : list A) (n : Z) : list A :=
  if 0 <=? n then take (Z.to_nat n) l
  else take (Z.to_nat (Z.of_nat (length l) + n)) l.

Definition extractTimestamps (radarId suffix : string) (items : list ListItem)
    (maxResults : Z) : list string :=
  slice0
    (rev (sortStrings
       (omap (fun item => matchTimestamp radarId suffix (name item))
          (filter (fun item => type item = "-"%string
                               /\ is_Some (matchTimestamp radarId suffix (name item))) items))))
    maxResults.

Definition timestampsCacheKey (radarId : string) (resolution : Z) : string :=
  "timestamps_" +:+ radarId +:+ "_" +:+ pretty resolution.

Definition rateLimitError (waitTime : Z) (radarId : string) : JsError :=
  Error ("Rate limit: Please wait " +:+ pretty waitTime
         +:+ " seconds before refreshing timestamps for " +:+ radarId).

Definition listAvailableTimestamps (ftp : Ftp Buffer) (st : Meta) (now : Z)
    (radarId : string) (resolution maxResults : Z) (force : bool) : ListResult :=
  match RESOLUTION_SUFFIX resolution with
  | None => mkList (inl (Error ("Invalid resolution: " +:+ pretty resolution))) st 0
  | Some suffix =>
      let cacheKey := timestampsCacheKey radarId resolution in
      let (cached, st) := metaCache_get st now cacheKey in
      match cached, force with
      | Some ts, false =>
          let nextRefresh := getTimeUntilNextRefresh st now radarId in
          mkList (inr (mkListing ts true nextRefresh None)) st 0
      | _, _ =>
          if negb force && negb (canRefreshTimestamps st now radarId) then
            let waitTime := getTimeUntilNextRefresh st now radarId in
            match cached with
            | Some ts => mkList (inr (mkListing ts true waitTime (Some true))) st 0
            | None => mkList (inl (rateLimitError waitTime radarId)) st 0
            end
          else
            match connectFTP ftp with
            | inl e => mkList (inl e) st 1
            | inr _ =>
                match ftp_list ftp FTP_PATH with
                | inl err => mkList (inl err) st 1
                | inr items =>
                    let timestamps := extractTimestamps radarId suffix items maxResults in
                    let st1 := metaCache_set st now cacheKey timestamps in
                    let st2 := updateTimestampRefreshTime st1 now radarId in
                    mkList (inr (mkListing timestamps false
                                   (TIMESTAMP_REFRESH_INTERVAL / 1000) None))
                           st2 1
                end
            end
      end
  end.

(** *** checkCacheSize

    [files] is what [fs.readdir (CACHE_DIR)] resolved with. *)

(** The first loop: [totalSize] and [fileStats]; [inl file] when the [stat]
    of [file] rejects. *)
Fixpoint scanFiles (flt : Faults) (d : Disk) (files : list string)
    (totalSize : Z) (fileStats : list FileStat) : string + (Z * list FileStat) :=
  match files with
  | [] => inr (totalSize, fileStats)
  | file :: rest =>
      if negb (endsWith file ".png") then scanFiles flt d rest totalSize fileStats
      else
        match fs_stat flt d file with
        | None => inl file
        | Some stats =>
            scanFiles flt d rest (totalSize + st_size stats)
              (fileStats ++ [mkFileStat file (st_size stats) (st_mtimeMs stats)])
        end
  end.

Fixpoint insertByMtime (x : FileStat) (l : list FileStat) : list FileStat :=
  match l with
  | [] => [x]
  | y :: l' => if mtime x <=? mtime y then x :: l else y :: insertByMtime x l'
  end.

(** [fileStats.sort ((a, b) => a.mtime - b.mtime)]; the sort is stable. *)
Definition sortByMtime (fileStats : list FileStat) : list FileStat :=
  foldr insertByMtime [] fileStats.

(** The second loop, over the sorted [fileStats]. *)
Fixpoint evictFiles (flt : Faults) (totalSize : Z) (targetSize : Q)
    (fileStats : list FileStat) (d : Disk) (freedSpace deleted : Z) : Sweep Buffer :=
  match fileStats with
  | [] => mkSweep d deleted freedSpace None
  | file :: rest =>
      if Qle_bool (inject_Z (totalSize - freedSpace)) targetSize
      then mkSweep d deleted freedSpace None
      else
        match fs_unlink flt d (path file) with
        | None => mkSweep d deleted freedSpace (Some (path file))
        | Some d' =>
            evictFiles flt totalSize targetSize rest d' (freedSpace + size_ file) (deleted + 1)
        end
  end.

Definition checkCacheSize (flt : Faults) (files : list string) (d : Disk) : Sweep Buffer :=
  match scanFiles flt d files 0 [] with
  | inl file => mkSweep d 0 0 (Some file)
  | inr (totalSize, fileStats) =>
      let totalSizeMB := (inject_Z totalSize / 1024 / 1024)%Q in
      if Qlt_bool (inject_Z MAX_CACHE_SIZE_MB) totalSizeMB then
        let sorted := sortByMtime fileStats in
        let targetSize := (inject_Z MAX_CACHE_SIZE_MB * 0.8 * 1024 * 1024)%Q in
        evictFiles flt totalSize targetSize sorted d 0 0
      else mkSweep d 0 0 None
  end.

(** *** cleanupCache *)

Fixpoint cleanupFiles (flt : Faults) (now : Z) (files : list string) (d : Disk)
    (deleted freedSpace : Z) : Sweep Buffer :=
  match files with
  | [] => mkSweep d deleted freedSpace None
  | file :: rest =>
      if negb (endsWith file ".png") then cleanupFiles flt now rest d deleted freedSpace
      else
        match fs_stat flt d file with
        | None => mkSweep d deleted freedSpace (Some file)
        | Some stats =>
            let age := seconds (now - st_mtimeMs stats) in
            if Qlt_bool (inject_Z DISK_CACHE_TTL) age then
              match fs_unlink flt d file with
              | None => mkSweep d deleted (freedSpace + st_size stats) (Some file)
              | Some d' =>
                  cleanupFiles flt now rest d' (deleted + 1) (freedSpace + st_size stats)
              end
            else cleanupFiles flt now rest d deleted freedSpace
        end
  end.

Definition cleanupCache (flt : Faults) (files : list string) (d : Disk) (now : Z)
  : Sweep Buffer :=
  cleanupFiles flt now files d 0 0.

End Server.

(** ** The stand-alone server ([server.js] at the root of the repository)

    No resolutions, fixed constants, no size sweep; the freshness test of a
    current image reads the age of the cached file. *)

Module Legacy.

Record RadarImage (Buffer : Type) := mkImage {
  buffer : Buffer;
  fromCache : bool;
  cacheAge : Z;
  imageAge : option Z
}.
Arguments mkImage {Buffer} _ _ _ _.
Arguments buffer {Buffer} _.
Arguments fromCache {Buffer} _.
Arguments cacheAge {Buffer} _.
Arguments imageAge {Buffer} _.

Record GetResult (Buffer : Type) := mkGet {
  returned : JsError + RadarImage Buffer;
  disk_after : gmap string (File Buffer);
  downloads : nat
}.
Arguments mkGet {Buffer} _ _ _.
Arguments returned {Buffer} _.
Arguments disk_after {Buffer} _.
Arguments downloads {Buffer} _.

Inductive CacheCheck (Buffer : Type) :=
  | CacheHit (r : RadarImage Buffer)
  | CacheMiss (d : gmap string (File Buffer)).
Arguments CacheHit {Buffer} _.
Arguments CacheMiss {Buffer} _.

Section Server.

Context {Buffer : Type} `{host : Host Buffer}.

Abbreviation Disk := (gmap string (File Buffer)).

Definition CURRENT_IMAGE_REFRESH_INTERVAL : Z := 600000.
Definition CURRENT_IMAGE_THRESHOLD : Z := 1800.
Definition DISK_CACHE_TTL : Z := 3600 * 24.

Definition downloadFromFTP (ftp : Ftp Buffer) (radarId timestamp : string)
  : JsError + Buffer :=
  match connectFTP ftp with
  | inl e => inl e
  | inr _ =>
      let filename := radarId +:+ ".T." +:+ timestamp +:+ ".png" in
      let remotePath := FTP_PATH +:+ filename in
      match ftp_get ftp remotePath with
      | GetError e => inl e
      | GetStream chunks None => inr (Buffer_concat chunks)
      | GetStream chunks (Some e) => inl e
      end
  end.

Definition imageCachePath (radarId timestamp : string) : string :=
  (radarId +:+ "_" +:+ timestamp) +:+ ".png".

Definition cacheCheck (flt : Faults) (d : Disk) (now : Z) (radarId timestamp : string)
  : CacheCheck Buffer :=
  let cachePath := imageCachePath radarId timestamp in
  match fs_stat flt d cachePath with
  | None => CacheMiss d
  | Some stats =>
      let cacheAge := seconds (now - st_mtimeMs stats) in
      if Qle_bool (inject_Z DISK_CACHE_TTL) cacheAge then
        match fs_unlink flt d cachePath with
        | Some d' => CacheMiss d'
        | None => CacheMiss d
        end
      else
        let imageAge := imageAgeAt now timestamp in
        let isCurrent := js_lt imageAge (inject_Z CURRENT_IMAGE_THRESHOLD) in
        if negb isCurrent || Qlt_bool cacheAge (seconds CURRENT_IMAGE_REFRESH_INTERVAL) then
          match fs_readFile flt d cachePath with
          | Some buf => CacheHit (mkImage buf true (Qfloor cacheAge) (js_floor imageAge))
          | None => CacheMiss d
          end
        else
          match fs_unlink flt d cachePath with
          | Some d' => CacheMiss d'
          | None => CacheMiss d
          end
  end.

Definition downloadAndStore (flt : Faults) (ftp : Ftp Buffer) (d : Disk) (now : Z)
    (radarId timestamp : string) : GetResult Buffer :=
  let cachePath := imageCachePath radarId timestamp in
  match downloadFromFTP ftp radarId timestamp with
  | inl e => mkGet (inl e) d 1
  | inr buf =>
      match fs_writeFile flt d cachePath buf now with
      | inl (error, d') => mkGet (inl error) d' 1
      | inr d' =>
          mkGet (inr (mkImage buf false 0 (js_floor (imageAgeAt now timestamp)))) d' 1
      end
  end.

Definition getRadarImage (flt : Faults) (ftp : Ftp Buffer) (d : Disk) (now : Z)
    (radarId timestamp : string) : GetResult Buffer :=
  match cacheCheck flt d now radarId timestamp with
  | CacheHit r => mkGet (inr r) d 0
  | CacheMiss d1 => downloadAndStore flt ftp d1 now radarId timestamp
  end.

End Server.

End Legacy.

(** ** A host to run the servers on

    Buffers as runs of equal bytes, the clock of a host in UTC, nothing set in
    the environment. *)

Definition Runs : Type := list (Z * Z).

Definition Runs_length (b : Runs) : Z := foldr (fun r acc => Z.max 0 (snd r) + acc) 0 b.

(** Days from 1970-01-01 to the civil date [y]-[m]-[d], [m] from 1. *)
Definition daysFromCivil (y m d : Z) : Z :=
  let y' := if m <=? 2 then y - 1 else y in
  let era := y' / 400 in
  let yoe := y' - era * 400 in
  let doy := (153 * (if 2 <? m then m - 3 else m + 9) + 2) / 5 + d - 1 in
  let doe := yoe * 365 + yoe / 4 - yoe / 100 + doy in
  era * 146097 + doe - 719468.

Definition utcGetTime (year month day hour minute : Z) : Z :=
  ((daysFromCivil year (month + 1) day * 24 + hour) * 60 + minute) * 60000.

(** A write that fails on this host has run out of space after creating
    or truncating the file. *)
Definition utcHost : Host Runs := {|
  Buffer_length := Runs_length;
  Buffer_concat := fun chunks => concat chunks;
  Date_getTime := utcGetTime;
  process_env := mkEnv None None None;
  writeFile_error := fun _ _ _ => mkError "ENOSPC: no space left on device, write" None;
  writeFile_remains := fun _ _ _ now => Some (mkFile [] now)
|}.

(** What the origin lists under [FTP_PATH]. *)
Definition radarListing : list ListItem :=
  [ mkItem "-" "IDR0232.T.202410231424.png";
    mkItem "-" "IDR0232.T.202410231430.png";
    mkItem "-" "IDR0233.T.202410231430.png";
    mkItem "d" "IDR0232.T.202410231436.png";
    mkItem "-" "IDR0232.T.202410231418.png";
    mkItem "-" "IDR0232.T.20241023.png";
    mkItem "-" "IDR023.gif" ]%string.

(** An origin that answers every [get] with the same two chunks. *)
Definition steadyFtp : Ftp Runs :=
  mkFtp Ready (fun _ => GetStream [[(137, 1)]; [(0, 4095)]] None) (fun _ => inr radarListing).

(** An origin whose transfers break after the first chunk. *)
Definition brokenFtp : Ftp Runs :=
  mkFtp Ready (fun _ => GetStream [[(137, 1)]] (Some (mkError "Connection reset" None)))
        (fun _ => inl (mkError "Connection reset" None)).

(** 2024-10-23 14:30 UTC, the time in the name of the image of the scenarios. *)
Definition at1430 : Z := 1729693800000.

Definition image1430 : string := "IDR023_202410231430_128.png".


(** A file system on which writing one file fails. *)
Definition writeFails (name : string) : Faults :=
  fun op p => match op with WriteFile => String.eqb p name | _ => false end.

(** Three objects of 400 MB each, written an hour apart. *)
Definition fullStore : gmap string (File Runs) :=
  <["IDR023_202410231230_128.png"%string := mkFile [(0, 419430400)] (at1430 - 7200000)]>
    (<["IDR023_202410231330_128.png"%string := mkFile [(0, 419430400)] (at1430 - 3600000)]>
       (<[image1430 := mkFile [(0, 419430400)] at1430]> ∅)).

(** A [get] was answered from the cache. *)
Definition servedFromCache {Buffer : Type} (r : GetResult Buffer) : bool :=
  match returned r with
  | inr image => fromCache image
  | inl _ => false
  end.

(** No operation on [p] fails for a reason of the file system's own. *)
Definition quiet (flt : Faults) (p : string) : Prop :=
  forall op, flt op p = false.

(** [getRadarImage] called once at each of [times], each call on the
    directory the one before left. *)
Fixpoint getRepeatedly {Buffer : Type} `{host : Host Buffer}
    (flt : Faults) (ftp : Ftp Buffer) (d : gmap string (File Buffer)) (times : list Z)
    (radarId timestamp : string) (resolution : Z) : list (GetResult Buffer) :=
  match times with
  | [] => []
  | now :: rest =>
      let r := getRadarImage flt ftp d now radarId timestamp resolution in
      r :: getRepeatedly flt ftp (disk_after r) rest radarId timestamp resolution
  end.

(** The objects of the store are the [.png] files of the directory. *)
Definition isObject (name : string) : bool := endsWith name ".png".

(** The bytes the objects of the store take together. *)
Definition storeSize {Buffer : Type} `{host : Host Buffer} (d : gmap string (File Buffer)) : Z :=
  map_fold (fun name f acc => if isObject name then Buffer_length (content f) + acc else acc) 0 d.

(** [files] lists the directory: every name in it, once, in some order. *)
Definition lists {Buffer : Type} (files : list string) (d : gmap string (File Buffer)) : Prop :=
  NoDup files /\ forall name, name ∈ files <-> is_Some (d !! name).

(** The directory after unlinking [names], one after the other. *)
Definition unlinkAll {Buffer : Type} (names : list string) (d : gmap string (File Buffer))
  : gmap string (File Buffer) :=
  foldl (fun d name => delete name d) d names.

(** The entries [checkCacheSize] collects from a listing when no [stat]
    fails, and the sum of their sizes. *)
Definition fileStatsOf {Buffer : Type} `{host : Host Buffer}
    (d : gmap string (File Buffer)) (files : list string) : list FileStat :=
  omap (fun name =>
          if isObject name
          then (fun f => mkFileStat name (Buffer_length (content f)) (mtimeMs f)) <$> d !! name
          else None) files.

Definition sumSizes (l : list FileStat) : Z := foldr (fun e acc => size_ e + acc) 0 l.

Definition olderOrEqual (a b : FileStat) : Prop := mtime a <= mtime b.

(** [name] is an object of [d] and no object of [d] is older. *)
Definition oldestObject {Buffer : Type} (d : gmap string (File Buffer)) (name : string) : Prop :=
  isObject name = true
  /\ exists f, d !! name = Some f
               /\ forall g gf, isObject g = true -> d !! g = Some gf -> mtimeMs f <= mtimeMs gf.

(** [victims], unlinked from [d] in this order: each was an oldest object
    of what was left, and what was left was above 80 % of the budget. *)
Definition evictedInOrder {Buffer : Type} `{host : Host Buffer}
    (d : gmap string (File Buffer)) (victims : list string) : Prop :=
  forall pre name post,
    victims = pre ++ name :: post ->
    oldestObject (unlinkAll pre d) name
    /\ 4 * MAX_CACHE_SIZE_MB * 1048576 < 5 * storeSize (unlinkAll pre d).

(** Timestamps compare as strings: [a] is not older than [b]. *)
Definition notOlder (a b : string) : Prop := String.leb b a = true.

(** ** The listing of the stand-alone server

    One cached set and one limiter entry per radar, a fixed interval of ten
    minutes, [stdTTL: 600] for the cached sets.

    Here the clock readings of a call are kept apart: [now] on entry, for
    [metaCache.get] and the limiter, and, once the origin has answered,
    [setAt] inside [metaCache.set] and [stampAt] inside
    [updateTimestampRefreshTime]. *)

Module LegacyListing.

Section Server.

Context {Buffer : Type}.

Definition TIMESTAMP_REFRESH_INTERVAL : Z := 600000.

Definition canRefreshTimestamps (st : Meta) (now : Z) (radarId : string) : bool :=
  let lastRefresh := lastTimestampRefresh st !! radarId in
  if falsy lastRefresh then true
  else
    let timeSinceLastRefresh := now - default 0 lastRefresh in
    TIMESTAMP_REFRESH_INTERVAL <=? timeSinceLastRefresh.

Definition updateTimestampRefreshTime (st : Meta) (now : Z) (radarId : string) : Meta :=
  mkMeta (metaCache st) (<[radarId := now]> (lastTimestampRefresh st)).

Definition getTimeUntilNextRefresh (st : Meta) (now : Z) (radarId : string) : Z :=
  let lastRefresh := lastTimestampRefresh st !! radarId in
  if falsy lastRefresh then 0
  else
    let timeSinceLastRefresh := now - default 0 lastRefresh in
    let timeRemaining := TIMESTAMP_REFRESH_INTERVAL - timeSinceLastRefresh in
    Z.max 0 (Qceiling (seconds timeRemaining)).

(** [metaCache.set (key, value)] with [stdTTL: 600]. *)
Definition metaCache_set (st : Meta) (now : Z) (key : string) (v : list string) : Meta :=
  mkMeta (<[key := mkEntry v (now + 600 * 1000)]> (metaCache st)) (lastTimestampRefresh st).

Definition timestampsCacheKey (radarId : string) : string := "timestamps_" +:+ radarId.

(** The pattern has no suffix: [^${radarId}\\.T\\.(\\d{12})\\.png$]. *)
Definition extractTimestamps (radarId : string) (items : list ListItem) (maxResults : Z)
  : list string :=
  slice0
    (rev (sortStrings
       (omap (fun item => matchTimestamp radarId "" (name item))
          (filter (fun item => type item = "-"%string
                               /\ is_Some (matchTimestamp radarId "" (name item))) items))))
    maxResults.

Definition listAvailableTimestamps (ftp : Ftp Buffer) (st : Meta) (now setAt stampAt : Z)
    (radarId : string) (maxResults : Z) (force : bool) : ListResult :=
  let cacheKey := timestampsCacheKey radarId in
  let (cached, st) := metaCache_get st now cacheKey in
  match cached, force with
  | Some ts, false =>
      let nextRefresh := getTimeUntilNextRefresh st now radarId in
      mkList (inr (mkListing ts true nextRefresh None)) st 0
  | _, _ =>
      if negb force && negb (canRefreshTimestamps st now radarId) then
        let waitTime := getTimeUntilNextRefresh st now radarId in
        match cached with
        | Some ts => mkList (inr (mkListing ts true waitTime (Some true))) st 0
        | None => mkList (inl (rateLimitError waitTime radarId)) st 0
        end
      else
        match connectFTP ftp with
        | inl e => mkList (inl e) st 1
        | inr _ =>
            match ftp_list ftp FTP_PATH with
            | inl err => mkList (inl err) st 1
            | inr items =>
                let timestamps := extractTimestamps radarId items maxResults in
                let st1 := metaCache_set st setAt cacheKey timestamps in
                let st2 := updateTimestampRefreshTime st1 stampAt radarId in
                mkList (inr (mkListing timestamps false
                               (TIMESTAMP_REFRESH_INTERVAL / 1000) None))
                       st2 1
            end
        end
  end.

(** One request to the listing, with the clock readings of its call. *)
Record Request := mkRequest {
  origin : Ftp Buffer;
  time : Z;
  setAt : Z;
  stampAt : Z;
  radar : string;
  limit : Z;
  forced : bool
}.

(** What happens to the in-memory state: a request is served, or
    node-cache's timer runs its check. *)
Inductive Step :=
  | Call (q : Request)
  | Check (now : Z).

(** The steps taken one after the other from the state [st]: each request
    with its result. *)
Fixpoint serve (st : Meta) (steps : list Step) : list (Request * ListResult) :=
  match steps with
  | [] => []
  | Call q :: rest =>
      let r := listAvailableTimestamps (origin q) st (time q) (setAt q) (stampAt q)
                 (radar q) (limit q) (forced q) in
      (q, r) :: serve (meta_after r) rest
  | Check now :: rest => serve (metaCache_checkData st now) rest
  end.

(** The clock does not go back: the readings of the steps, in the order
    they are taken, never decrease from [from] on. *)
Fixpoint clockRuns (from : Z) (steps : list Step) : Prop :=
  match steps with
  | [] => True
  | Call q :: rest =>
      from <= time q /\ time q <= setAt q /\ setAt q <= stampAt q /\ clockRuns (stampAt q) rest
  | Check now :: rest => from <= now /\ clockRuns now rest
  end.

(** The request was refused by the limiter: an error, the origin not
    contacted. *)
Definition refused (r : ListResult) : Prop :=
  (exists e, answer r = inl e) /\ connections r = 0%nat.

(** Every radar with a last refresh was stamped by one of the [calls], and
    the set that call cached is still there, or it was deleted after its time
    and the clock has since passed [T]. *)
Definition stampedRadarsWereListed (calls : Request -> Prop) (T : Z) (st : Meta) : Prop :=
  forall radarId last,
    lastTimestampRefresh st !! radarId = Some last ->
    exists q,
      calls q /\ radar q = radarId /\ stampAt q = last
      /\ ((exists ts, metaCache st !! timestampsCacheKey radarId
                      = Some (mkEntry ts (setAt q + TIMESTAMP_REFRESH_INTERVAL)))
          \/ (metaCache st !! timestampsCacheKey radarId = None
              /\ setAt q + TIMESTAMP_REFRESH_INTERVAL < T)).

End Server.

End LegacyListing.

(** * Properties *)

(** ** Comparisons of ages *)

Lemma ttl_le_seconds (T ms : Z) : Qle_bool (inject_Z T) (seconds ms) = (T * 1000 <=? ms).
Proof. unfold Qle_bool, seconds, inject_Z; simpl. f_equal; lia. Qed.

Lemma ttl_lt_seconds (T ms : Z) : Qlt_bool (inject_Z T) (seconds ms) = (T * 1000 <? ms).
Proof.
  unfold Qlt_bool, Qle_bool, seconds, inject_Z; simpl.
  rewrite Z.mul_1_r, Z.ltb_antisym. reflexivity.
Qed.

Lemma seconds_lt_seconds (a b : Z) : Qlt_bool (seconds a) (seconds b) = (a <? b).
Proof.
  unfold Qlt_bool, Qle_bool, seconds; simpl.
  rewrite Z.ltb_antisym. f_equal.
  apply eq_true_iff_eq. rewrite !Z.leb_le. lia.
Qed.

Section ImageStore.

Context {Buffer : Type} `{host : Host Buffer}.

Abbreviation Disk := (gmap string (File Buffer)).

Lemma quiet_stat flt (d : Disk) p f :
  quiet flt p -> d !! p = Some f ->
  fs_stat flt d p = Some (mkStats (Buffer_length (content f)) (mtimeMs f)).
Proof. intros Hq Hf. unfold fs_stat. rewrite (Hq Stat), Hf. reflexivity. Qed.

Lemma quiet_unlink flt (d : Disk) p f :
  quiet flt p -> d !! p = Some f -> fs_unlink flt d p = Some (delete p d).
Proof. intros Hq Hf. unfold fs_unlink. rewrite (Hq Unlink), Hf. reflexivity. Qed.

Lemma quiet_readFile flt (d : Disk) p f :
  quiet flt p -> d !! p = Some f -> fs_readFile flt d p = Some (content f).
Proof. intros Hq Hf. unfold fs_readFile. rewrite (Hq ReadFile), Hf. reflexivity. Qed.

Lemma stat_absent flt (d : Disk) p : d !! p = None -> fs_stat flt d p = None.
Proof. intros Hf. unfold fs_stat. rewrite Hf. destruct (flt Stat p); reflexivity. Qed.

(** The first [try] block never adds a file: it leaves the directory as it
    is or removes the one file of the key. *)
Lemma cacheCheck_miss_disk flt (d d1 : Disk) now radarId timestamp resolution :
  cacheCheck flt d now radarId timestamp resolution = CacheMiss d1 ->
  d1 = d \/ d1 = delete (imageCachePath radarId timestamp resolution) d.
Proof.
  unfold cacheCheck, fs_unlink.
  repeat case_match; intros [= <-]; simplify_eq; auto.
Qed.

(** An object at least [DISK_CACHE_TTL] old is unlinked in the first block. *)
Lemma cacheCheck_expired flt (d : Disk) now radarId timestamp resolution f :
  quiet flt (imageCachePath radarId timestamp resolution) ->
  d !! imageCachePath radarId timestamp resolution = Some f ->
  DISK_CACHE_TTL * 1000 <= now - mtimeMs f ->
  cacheCheck flt d now radarId timestamp resolution
  = CacheMiss (delete (imageCachePath radarId timestamp resolution) d).
Proof.
  intros Hq Hf Hage. unfold cacheCheck.
  rewrite (quiet_stat _ _ _ _ Hq Hf); cbn [st_mtimeMs].
  rewrite ttl_le_seconds.
  destruct (Z.leb_spec (DISK_CACHE_TTL * 1000) (now - mtimeMs f)); [| lia].
  rewrite (quiet_unlink _ _ _ _ Hq Hf). reflexivity.
Qed.

Lemma cacheCheck_hit_fromCache flt (d : Disk) now radarId timestamp resolution r :
  cacheCheck flt d now radarId timestamp resolution = CacheHit r -> fromCache r = true.
Proof. unfold cacheCheck. repeat case_match; intros [= <-]; reflexivity. Qed.

Lemma cacheCheck_absent flt (d : Disk) now radarId timestamp resolution :
  d !! imageCachePath radarId timestamp resolution = None ->
  cacheCheck flt d now radarId timestamp resolution = CacheMiss d.
Proof. intros Hf. unfold cacheCheck. rewrite (stat_absent _ _ _ Hf). reflexivity. Qed.

(** An object younger than [DISK_CACHE_TTL] whose key is not current, or
    whose image is less than ten minutes old, is read back. *)
Lemma cacheCheck_usable flt (d : Disk) now radarId timestamp resolution f :
  quiet flt (imageCachePath radarId timestamp resolution) ->
  d !! imageCachePath radarId timestamp resolution = Some f ->
  now - mtimeMs f < DISK_CACHE_TTL * 1000 ->
  negb (isCurrentAt now timestamp)
  || js_lt (imageAgeAt now timestamp) (seconds CURRENT_IMAGE_REFRESH_INTERVAL) = true ->
  cacheCheck flt d now radarId timestamp resolution
  = CacheHit (mkImage (content f) true (Qfloor (seconds (now - mtimeMs f)))
                (js_floor (imageAgeAt now timestamp)) resolution).
Proof.
  intros Hq Hf Hage Huse. unfold cacheCheck.
  rewrite (quiet_stat _ _ _ _ Hq Hf); cbn [st_mtimeMs].
  rewrite ttl_le_seconds.
  destruct (Z.leb_spec (DISK_CACHE_TTL * 1000) (now - mtimeMs f)); [lia |].
  rewrite Huse, (quiet_readFile _ _ _ _ Hq Hf). reflexivity.
Qed.

Lemma cacheCheck_stale flt (d : Disk) now radarId timestamp resolution f :
  quiet flt (imageCachePath radarId timestamp resolution) ->
  d !! imageCachePath radarId timestamp resolution = Some f ->
  now - mtimeMs f < DISK_CACHE_TTL * 1000 ->
  negb (isCurrentAt now timestamp)
  || js_lt (imageAgeAt now timestamp) (seconds CURRENT_IMAGE_REFRESH_INTERVAL) = false ->
  cacheCheck flt d now radarId timestamp resolution
  = CacheMiss (delete (imageCachePath radarId timestamp resolution) d).
Proof.
  intros Hq Hf Hage Huse. unfold cacheCheck.
  rewrite (quiet_stat _ _ _ _ Hq Hf); cbn [st_mtimeMs].
  rewrite ttl_le_seconds.
  destruct (Z.leb_spec (DISK_CACHE_TTL * 1000) (now - mtimeMs f)); [lia |].
  rewrite Huse, (quiet_unlink _ _ _ _ Hq Hf). reflexivity.
Qed.

Lemma getRadarImage_supported flt ftp (d : Disk) now radarId timestamp resolution :
  includes SUPPORTED_RESOLUTIONS resolution = true ->
  getRadarImage flt ftp d now radarId timestamp resolution
  = match cacheCheck flt d now radarId timestamp resolution with
    | CacheHit r => mkGet (inr r) d 0 false
    | CacheMiss d1 => downloadAndStore flt ftp d1 now radarId timestamp resolution
    end.
Proof. intros Hres. unfold getRadarImage. rewrite Hres. reflexivity. Qed.

Lemma seconds_lt_threshold (a T : Z) : Qlt_bool (seconds a) (inject_Z T) = (a <? T * 1000).
Proof.
  unfold Qlt_bool, Qle_bool, seconds, inject_Z; simpl.
  rewrite Z.mul_1_r, Z.ltb_antisym. reflexivity.
Qed.

Lemma imageAgeAt_parsed now timestamp T :
  parseTimestamp timestamp = Some T -> imageAgeAt now timestamp = Some (seconds (now - T)).
Proof. intros HT. unfold imageAgeAt. rewrite HT. reflexivity. Qed.

Lemma isCurrentAt_parsed now timestamp T :
  parseTimestamp timestamp = Some T ->
  isCurrentAt now timestamp = (now - T <? CURRENT_IMAGE_THRESHOLD * 1000).
Proof.
  intros HT. unfold isCurrentAt. rewrite (imageAgeAt_parsed _ _ _ HT); cbn [js_lt].
  apply seconds_lt_threshold.
Qed.

(** What a download that went through leaves: the bytes under the key, with
    the time of the write. *)
Lemma downloadAndStore_ok flt ftp (d : Disk) now radarId timestamp resolution buf :
  downloadFromFTP ftp radarId timestamp resolution = inr buf ->
  flt WriteFile (imageCachePath radarId timestamp resolution) = false ->
  downloadAndStore flt ftp d now radarId timestamp resolution
  = mkGet (inr (mkImage buf false 0 (js_floor (imageAgeAt now timestamp)) resolution))
      (<[imageCachePath radarId timestamp resolution := mkFile buf now]> d) 1 true.
Proof.
  intros Hdl Hw. unfold downloadAndStore, fs_writeFile. rewrite Hdl, Hw. reflexivity.
Qed.

(** [downloadAndStore] returns a value only after the write. *)
Lemma downloadAndStore_returned flt ftp (d : Disk) now radarId timestamp resolution image :
  returned (downloadAndStore flt ftp d now radarId timestamp resolution) = inr image ->
  fromCache image = false
  /\ disk_after (downloadAndStore flt ftp d now radarId timestamp resolution)
     = <[imageCachePath radarId timestamp resolution := mkFile (buffer image) now]> d.
Proof.
  unfold downloadAndStore, fs_writeFile.
  repeat case_match; cbn; intros [= <-]; simplify_eq; auto.
Qed.

(** A broken transfer rejects, whatever chunks had arrived before it broke. *)
Lemma downloadFromFTP_broken_stream ftp radarId timestamp resolution chunks e filename remotePath :
  ftp_connect ftp = Ready ->
  buildRadarUrl radarId timestamp resolution = inr (filename, remotePath) ->
  ftp_get ftp remotePath = GetStream chunks (Some e) ->
  downloadFromFTP ftp radarId timestamp resolution = inl e.
Proof.
  intros Hc Hu Hg. unfold downloadFromFTP, connectFTP. rewrite Hc, Hu, Hg. reflexivity.
Qed.

(** The stand-alone server keeps a current object for ten minutes from the
    time it was written. *)
Lemma Legacy_current_by_storage_age flt ftp (d : Disk) now radarId timestamp f T :
  quiet flt (Legacy.imageCachePath radarId timestamp) ->
  d !! Legacy.imageCachePath radarId timestamp = Some f ->
  now - mtimeMs f < Legacy.DISK_CACHE_TTL * 1000 ->
  parseTimestamp timestamp = Some T ->
  now - T < Legacy.CURRENT_IMAGE_THRESHOLD * 1000 ->
  (now - mtimeMs f < Legacy.CURRENT_IMAGE_REFRESH_INTERVAL ->
   Legacy.getRadarImage flt ftp d now radarId timestamp
   = Legacy.mkGet
       (inr (Legacy.mkImage (content f) true (Qfloor (seconds (now - mtimeMs f)))
               (Some (Qfloor (seconds (now - T))))))
       d 0)
  /\ (Legacy.CURRENT_IMAGE_REFRESH_INTERVAL <= now - mtimeMs f ->
      Legacy.getRadarImage flt ftp d now radarId timestamp
      = Legacy.downloadAndStore flt ftp (delete (Legacy.imageCachePath radarId timestamp) d)
          now radarId timestamp).
Proof.
  intros Hq Hf Httl HT Hcur.
  unfold Legacy.getRadarImage, Legacy.cacheCheck.
  rewrite (quiet_stat _ _ _ _ Hq Hf); cbn [st_mtimeMs].
  rewrite ttl_le_seconds.
  destruct (Z.leb_spec (Legacy.DISK_CACHE_TTL * 1000) (now - mtimeMs f)); [lia |].
  rewrite (imageAgeAt_parsed _ _ _ HT); cbn [js_lt js_floor fmap option_fmap option_map].
  rewrite seconds_lt_threshold, seconds_lt_seconds.
  destruct (Z.ltb_spec (now - T) (Legacy.CURRENT_IMAGE_THRESHOLD * 1000)); [| lia].
  cbn [negb orb].
  split; intros Hage.
  - destruct (Z.ltb_spec (now - mtimeMs f) Legacy.CURRENT_IMAGE_REFRESH_INTERVAL); [| lia].
    rewrite (quiet_readFile _ _ _ _ Hq Hf). reflexivity.
  - destruct (Z.ltb_spec (now - mtimeMs f) Legacy.CURRENT_IMAGE_REFRESH_INTERVAL); [lia |].
    rewrite (quiet_unlink _ _ _ _ Hq Hf). reflexivity.
Qed.

(** The add-on server keeps a current object while the image itself, by the
    timestamp in its name, is less than ten minutes old. *)
Lemma current_by_image_age flt ftp (d : Disk) now radarId timestamp resolution f T :
  includes SUPPORTED_RESOLUTIONS resolution = true ->
  quiet flt (imageCachePath radarId timestamp resolution) ->
  d !! imageCachePath radarId timestamp resolution = Some f ->
  now - mtimeMs f < DISK_CACHE_TTL * 1000 ->
  parseTimestamp timestamp = Some T ->
  now - T < CURRENT_IMAGE_THRESHOLD * 1000 ->
  (now - T < CURRENT_IMAGE_REFRESH_INTERVAL ->
   getRadarImage flt ftp d now radarId timestamp resolution
   = mkGet
       (inr (mkImage (content f) true (Qfloor (seconds (now - mtimeMs f)))
               (Some (Qfloor (seconds (now - T)))) resolution))
       d 0 false)
  /\ (CURRENT_IMAGE_REFRESH_INTERVAL <= now - T ->
      getRadarImage flt ftp d now radarId timestamp resolution
      = downloadAndStore flt ftp (delete (imageCachePath radarId timestamp resolution) d)
          now radarId timestamp resolution).
Proof.
  intros Hres Hq Hf Httl HT Hcur.
  rewrite (getRadarImage_supported _ _ _ _ _ _ _ Hres).
  assert (Hc : isCurrentAt now timestamp = true).
  { rewrite (isCurrentAt_parsed _ _ _ HT). apply Z.ltb_lt. exact Hcur. }
  split; intros Hage.
  - rewrite (cacheCheck_usable _ _ _ _ _ _ f Hq Hf Httl).
    + rewrite (imageAgeAt_parsed _ _ _ HT). reflexivity.
    + rewrite Hc, (imageAgeAt_parsed _ _ _ HT); cbn [js_lt negb orb].
      rewrite seconds_lt_seconds. apply Z.ltb_lt. exact Hage.
  - rewrite (cacheCheck_stale _ _ _ _ _ _ f Hq Hf Httl); [reflexivity |].
    rewrite Hc, (imageAgeAt_parsed _ _ _ HT); cbn [js_lt negb orb].
    rewrite seconds_lt_seconds. apply Z.ltb_ge. exact Hage.
Qed.

(** On a directory that holds the object written at [t0], every later call
    within [DISK_CACHE_TTL] for a key that is not current is a hit. *)
Lemma getRepeatedly_hits flt ftp (d : Disk) radarId timestamp resolution buf t0 T times :
  includes SUPPORTED_RESOLUTIONS resolution = true ->
  quiet flt (imageCachePath radarId timestamp resolution) ->
  d !! imageCachePath radarId timestamp resolution = Some (mkFile buf t0) ->
  parseTimestamp timestamp = Some T ->
  CURRENT_IMAGE_THRESHOLD * 1000 <= t0 - T ->
  Forall (fun t => t0 <= t /\ t - t0 < DISK_CACHE_TTL * 1000) times ->
  Forall (fun r => (exists image, returned r = inr image /\ fromCache image = true
                                  /\ buffer image = buf)
                   /\ downloads r = 0%nat /\ disk_after r = d)
         (getRepeatedly flt ftp d times radarId timestamp resolution).
Proof.
  intros Hres Hq Hf HT Hold Htimes.
  induction Htimes as [| t times [Hge Hlt] _ IH]; [constructor |].
  cbn [getRepeatedly].
  assert (Hhit : getRadarImage flt ftp d t radarId timestamp resolution
                 = mkGet (inr (mkImage buf true (Qfloor (seconds (t - t0)))
                                 (js_floor (imageAgeAt t timestamp)) resolution)) d 0 false).
  { rewrite (getRadarImage_supported _ _ _ _ _ _ _ Hres).
    rewrite (cacheCheck_usable _ _ _ _ _ _ _ Hq Hf); [reflexivity | exact Hlt |].
    rewrite (isCurrentAt_parsed _ _ _ HT).
    destruct (Z.ltb_spec (t - T) (CURRENT_IMAGE_THRESHOLD * 1000)); [lia | reflexivity]. }
  rewrite Hhit; cbn [disk_after]. constructor; [| exact IH].
  cbn. split; [eexists; split; [reflexivity | split; reflexivity] | split; reflexivity].
Qed.

(** C1 (as amended). For a current key (image less than 30 minutes old by
    the timestamp in its name) whose object is on disk and younger than
    DISK_CACHE_TTL: the add-on server returns the object from the cache when
    the image is less than ten minutes old and otherwise deletes it and goes
    on to the download, whatever the age of the file; the stand-alone server
    applies the same test to the age of the file. *)
Theorem current_object_ten_minute_rule flt ftp (d : Disk) now radarId timestamp resolution T :
  parseTimestamp timestamp = Some T ->
  now - T < 1800 * 1000 ->
  (forall f,
     includes SUPPORTED_RESOLUTIONS resolution = true ->
     quiet flt (imageCachePath radarId timestamp resolution) ->
     d !! imageCachePath radarId timestamp resolution = Some f ->
     now - mtimeMs f < DISK_CACHE_TTL * 1000 ->
     (now - T < 600 * 1000 ->
      getRadarImage flt ftp d now radarId timestamp resolution
      = mkGet
          (inr (mkImage (content f) true (Qfloor (seconds (now - mtimeMs f)))
                  (Some (Qfloor (seconds (now - T)))) resolution))
          d 0 false)
     /\ (600 * 1000 <= now - T ->
         getRadarImage flt ftp d now radarId timestamp resolution
         = downloadAndStore flt ftp (delete (imageCachePath radarId timestamp resolution) d)
             now radarId timestamp resolution))
  /\ (forall f,
        quiet flt (Legacy.imageCachePath radarId timestamp) ->
        d !! Legacy.imageCachePath radarId timestamp = Some f ->
        now - mtimeMs f < Legacy.DISK_CACHE_TTL * 1000 ->
        (now - mtimeMs f < 600 * 1000 ->
         Legacy.getRadarImage flt ftp d now radarId timestamp
         = Legacy.mkGet
             (inr (Legacy.mkImage (content f) true (Qfloor (seconds (now - mtimeMs f)))
                     (Some (Qfloor (seconds (now - T))))))
             d 0)
        /\ (600 * 1000 <= now - mtimeMs f ->
            Legacy.getRadarImage flt ftp d now radarId timestamp
            = Legacy.downloadAndStore flt ftp
                (delete (Legacy.imageCachePath radarId timestamp) d) now radarId timestamp)).
Proof.
  intros HT Hcur. split.
  - intros f Hres Hq Hf Httl.
    exact (current_by_image_age flt ftp d now radarId timestamp resolution f T
             Hres Hq Hf Httl HT Hcur).
  - intros f Hq Hf Httl.
    exact (Legacy_current_by_storage_age flt ftp d now radarId timestamp f T
             Hq Hf Httl HT Hcur).
Qed.

(** C5. A key that is historical (image at least 1800 s old) when its object
    is stored by a successful download at [t0]: every later call within
    DISK_CACHE_TTL of [t0], however many there are, returns the stored bytes
    from the cache, calls the origin not once and leaves the directory as it
    was. *)
Theorem historical_object_served_from_cache
    flt ftp (d0 : Disk) radarId timestamp resolution t0 T image0 times :
  quiet flt (imageCachePath radarId timestamp resolution) ->
  parseTimestamp timestamp = Some T ->
  1800 * 1000 <= t0 - T ->
  returned (getRadarImage flt ftp d0 t0 radarId timestamp resolution) = inr image0 ->
  fromCache image0 = false ->
  Forall (fun t => t0 <= t /\ t - t0 < DISK_CACHE_TTL * 1000) times ->
  let stored := disk_after (getRadarImage flt ftp d0 t0 radarId timestamp resolution) in
  Forall (fun r => (exists image, returned r = inr image /\ fromCache image = true
                                  /\ buffer image = buffer image0)
                   /\ downloads r = 0%nat /\ disk_after r = stored)
         (getRepeatedly flt ftp stored times radarId timestamp resolution).
Proof.
  intros Hq HT Hold Hret Hremote Htimes stored.
  assert (Hres : includes SUPPORTED_RESOLUTIONS resolution = true).
  { unfold getRadarImage in Hret.
    destruct (includes SUPPORTED_RESOLUTIONS resolution); [reflexivity | discriminate]. }
  assert (Hstored : stored !! imageCachePath radarId timestamp resolution
                    = Some (mkFile (buffer image0) t0)).
  { subst stored. rewrite (getRadarImage_supported _ _ _ _ _ _ _ Hres) in Hret |- *.
    destruct (cacheCheck flt d0 t0 radarId timestamp resolution) as [r | d1] eqn:Hcc.
    - cbn in Hret. injection Hret as ->.
      rewrite (cacheCheck_hit_fromCache _ _ _ _ _ _ _ Hcc) in Hremote. discriminate.
    - apply downloadAndStore_returned in Hret as [_ ->]. apply lookup_insert_eq. }
  exact (getRepeatedly_hits flt ftp stored radarId timestamp resolution (buffer image0)
           t0 T times Hres Hq Hstored HT Hold Htimes).
Qed.

(** C7. A call that finds the object of its key on disk with an age of
    DISK_CACHE_TTL or more answers exactly as it would with the object
    absent: the object is unlinked, and when the download goes through the
    new bytes are under the key, stamped with the time of the call, and are
    returned with [fromCache = false] and [cacheAge = 0]. *)
Theorem expired_object_is_a_miss flt ftp (d : Disk) now radarId timestamp resolution f :
  includes SUPPORTED_RESOLUTIONS resolution = true ->
  quiet flt (imageCachePath radarId timestamp resolution) ->
  d !! imageCachePath radarId timestamp resolution = Some f ->
  DISK_CACHE_TTL * 1000 <= now - mtimeMs f ->
  cacheCheck flt d now radarId timestamp resolution
  = CacheMiss (delete (imageCachePath radarId timestamp resolution) d)
  /\ getRadarImage flt ftp d now radarId timestamp resolution
     = getRadarImage flt ftp (delete (imageCachePath radarId timestamp resolution) d) now
         radarId timestamp resolution
  /\ forall buf,
       downloadFromFTP ftp radarId timestamp resolution = inr buf ->
       getRadarImage flt ftp d now radarId timestamp resolution
       = mkGet (inr (mkImage buf false 0 (js_floor (imageAgeAt now timestamp)) resolution))
           (<[imageCachePath radarId timestamp resolution := mkFile buf now]> d) 1 true.
Proof.
  intros Hres Hq Hf Hage.
  pose proof (cacheCheck_expired flt d now radarId timestamp resolution f Hq Hf Hage) as Hcc.
  split; [exact Hcc |].
  rewrite !(getRadarImage_supported _ _ _ _ _ _ _ Hres), Hcc.
  rewrite (cacheCheck_absent flt (delete _ d)) by apply lookup_delete_eq.
  split; [reflexivity |].
  intros buf Hdl.
  rewrite (downloadAndStore_ok _ _ _ _ _ _ _ buf Hdl (Hq WriteFile)).
  rewrite insert_delete_eq. reflexivity.
Qed.

(** C8. When the download of a call fails, with whatever error, the call
    throws that error and the directory is the one the download started
    from, which holds nothing the directory before the call did not.  A
    transfer that breaks after any number of chunks is such a failure; a file
    is written only with the concatenation of all chunks of a transfer that
    ended. *)
Theorem failed_download_persists_nothing flt ftp (d : Disk) now radarId timestamp resolution :
  includes SUPPORTED_RESOLUTIONS resolution = true ->
  (forall d1 e,
     cacheCheck flt d now radarId timestamp resolution = CacheMiss d1 ->
     downloadFromFTP ftp radarId timestamp resolution = inl e ->
     getRadarImage flt ftp d now radarId timestamp resolution = mkGet (inl e) d1 1 false
     /\ d1 ⊆ d)
  /\ (forall chunks e filename remotePath,
        ftp_connect ftp = Ready ->
        buildRadarUrl radarId timestamp resolution = inr (filename, remotePath) ->
        ftp_get ftp remotePath = GetStream chunks (Some e) ->
        downloadFromFTP ftp radarId timestamp resolution = inl e)
  /\ (forall image,
        returned (getRadarImage flt ftp d now radarId timestamp resolution) = inr image ->
        fromCache image = false ->
        exists chunks filename remotePath,
          buildRadarUrl radarId timestamp resolution = inr (filename, remotePath)
          /\ ftp_get ftp remotePath = GetStream chunks None
          /\ buffer image = Buffer_concat chunks
          /\ disk_after (getRadarImage flt ftp d now radarId timestamp resolution)
             !! imageCachePath radarId timestamp resolution
             = Some (mkFile (Buffer_concat chunks) now)).
Proof.
  intros Hres. split; [| split].
  - intros d1 e Hcc Hdl.
    rewrite (getRadarImage_supported _ _ _ _ _ _ _ Hres), Hcc.
    unfold downloadAndStore. rewrite Hdl. split; [reflexivity |].
    destruct (cacheCheck_miss_disk _ _ _ _ _ _ _ Hcc) as [-> | ->];
      [reflexivity | apply delete_subseteq].
  - intros chunks e filename remotePath.
    apply downloadFromFTP_broken_stream.
  - intros image. rewrite (getRadarImage_supported _ _ _ _ _ _ _ Hres).
    destruct (cacheCheck flt d now radarId timestamp resolution) as [r | d1] eqn:Hcc.
    + cbn. intros [= ->] Hremote.
      rewrite (cacheCheck_hit_fromCache _ _ _ _ _ _ _ Hcc) in Hremote. discriminate.
    + unfold downloadAndStore, downloadFromFTP, fs_writeFile.
      destruct (connectFTP ftp); [discriminate |].
      destruct (buildRadarUrl radarId timestamp resolution) as [| [filename remotePath]];
        [discriminate |].
      destruct (ftp_get ftp remotePath) as [| chunks [e |]] eqn:Hget; try discriminate.
      destruct (flt WriteFile _); [discriminate |].
      cbn. intros [= <-] _. exists chunks, filename, remotePath.
      cbn. rewrite lookup_insert_eq. auto.
Qed.

End ImageStore.

(** ** The timestamp listing and its limiter *)

Lemma Qceiling_seconds_whole (s : Z) : Qceiling (seconds (s * 1000)) = s.
Proof.
  unfold Qceiling, Qfloor, seconds, Qopp; simpl.
  rewrite <- Z.mul_opp_l, Z.div_mul by lia. lia.
Qed.

Lemma timestampsCacheKey_inj radarId (a b : Z) :
  timestampsCacheKey radarId a = timestampsCacheKey radarId b -> a = b.
Proof.
  unfold timestampsCacheKey. intros H.
  do 3 apply String.app_inj in H.
  exact (pretty_Z_inj _ _ H).
Qed.

Section Listing.

Context {Buffer : Type} `{host : Host Buffer}.

(** The interval is a whole number of seconds. *)
Lemma refresh_interval_seconds : TIMESTAMP_REFRESH_INTERVAL / 1000 * 1000 = TIMESTAMP_REFRESH_INTERVAL.
Proof. unfold TIMESTAMP_REFRESH_INTERVAL. rewrite Z.div_mul by lia. reflexivity. Qed.

Lemma canRefreshTimestamps_stamped st now radarId last :
  lastTimestampRefresh st !! radarId = Some last -> last <> 0 ->
  canRefreshTimestamps st now radarId = (TIMESTAMP_REFRESH_INTERVAL <=? now - last).
Proof.
  intros Hl Hne. unfold canRefreshTimestamps. rewrite Hl.
  destruct last; [congruence | reflexivity | reflexivity].
Qed.

Lemma getTimeUntilNextRefresh_stamped st now radarId last :
  lastTimestampRefresh st !! radarId = Some last -> last <> 0 ->
  getTimeUntilNextRefresh st now radarId
  = Z.max 0 (Qceiling (seconds (TIMESTAMP_REFRESH_INTERVAL - (now - last)))).
Proof.
  intros Hl Hne. unfold getTimeUntilNextRefresh. rewrite Hl.
  destruct last; [congruence | reflexivity | reflexivity].
Qed.

(** [metaCache.get] does not touch the limiter, leaves the state alone when
    it finds a value, and what it deletes [metaCache.set] writes anew. *)
Lemma metaCache_get_limiter st now key :
  lastTimestampRefresh (metaCache_get st now key).2 = lastTimestampRefresh st.
Proof. unfold metaCache_get. repeat case_match; reflexivity. Qed.

Lemma metaCache_get_Some st now key ts :
  (metaCache_get st now key).1 = Some ts -> (metaCache_get st now key).2 = st.
Proof. unfold metaCache_get. repeat case_match; cbn; congruence. Qed.

Lemma metaCache_get_absent st now key :
  metaCache st !! key = None -> metaCache_get st now key = (None, st).
Proof. intros Hk. unfold metaCache_get. rewrite Hk. reflexivity. Qed.

Lemma metaCache_set_after_get st now now' key ts :
  metaCache_set (metaCache_get st now key).2 now' key ts = metaCache_set st now' key ts.
Proof.
  unfold metaCache_get, metaCache_set. repeat case_match; cbn; try reflexivity.
  f_equal. apply insert_delete_eq.
Qed.

Lemma canRefreshTimestamps_after_get st now key now' radarId :
  canRefreshTimestamps (metaCache_get st now key).2 now' radarId
  = canRefreshTimestamps st now' radarId.
Proof. unfold canRefreshTimestamps. rewrite metaCache_get_limiter. reflexivity. Qed.

Lemma getTimeUntilNextRefresh_after_get st now key now' radarId :
  getTimeUntilNextRefresh (metaCache_get st now key).2 now' radarId
  = getTimeUntilNextRefresh st now' radarId.
Proof. unfold getTimeUntilNextRefresh. rewrite metaCache_get_limiter. reflexivity. Qed.

(** The body of [listAvailableTimestamps] with the lookup named. *)
Lemma listAvailableTimestamps_unfold (ftp : Ftp Buffer) st now radarId resolution maxResults force :
  listAvailableTimestamps ftp st now radarId resolution maxResults force
  = match RESOLUTION_SUFFIX resolution with
    | None => mkList (inl (Error ("Invalid resolution: " +:+ pretty resolution))) st 0
    | Some suffix =>
        let cacheKey := timestampsCacheKey radarId resolution in
        let cached := (metaCache_get st now cacheKey).1 in
        let st' := (metaCache_get st now cacheKey).2 in
        match cached, force with
        | Some ts, false =>
            mkList (inr (mkListing ts true (getTimeUntilNextRefresh st now radarId) None)) st 0
        | _, _ =>
            if negb force && negb (canRefreshTimestamps st now radarId) then
              match cached with
              | Some ts =>
                  mkList (inr (mkListing ts true (getTimeUntilNextRefresh st now radarId)
                                 (Some true))) st' 0
              | None =>
                  mkList (inl (rateLimitError (getTimeUntilNextRefresh st now radarId) radarId))
                         st' 0
              end
            else
              match connectFTP ftp with
              | inl e => mkList (inl e) st' 1
              | inr _ =>
                  match ftp_list ftp FTP_PATH with
                  | inl err => mkList (inl err) st' 1
                  | inr items =>
                      let timestamps := extractTimestamps radarId suffix items maxResults in
                      mkList (inr (mkListing timestamps false
                                     (TIMESTAMP_REFRESH_INTERVAL / 1000) None))
                             (updateTimestampRefreshTime
                                (metaCache_set st now cacheKey timestamps) now radarId)
                             1
                  end
              end
        end
    end.
Proof.
  unfold listAvailableTimestamps.
  destruct (RESOLUTION_SUFFIX resolution) as [suffix |]; [| reflexivity].
  cbv zeta.
  pose proof (metaCache_get_Some st now (timestampsCacheKey radarId resolution)) as Hsome.
  pose proof (metaCache_set_after_get st now now (timestampsCacheKey radarId resolution)) as Hset.
  pose proof (canRefreshTimestamps_after_get st now (timestampsCacheKey radarId resolution)
                now radarId) as Hcan.
  pose proof (getTimeUntilNextRefresh_after_get st now (timestampsCacheKey radarId resolution)
                now radarId) as Hwait.
  destruct (metaCache_get st now (timestampsCacheKey radarId resolution)) as [cached st'].
  cbn [fst snd] in *. rewrite Hcan, Hwait.
  destruct cached as [ts |], force; cbn [negb andb];
    try rewrite (Hsome ts eq_refl);
    repeat case_match; try reflexivity; rewrite Hset; reflexivity.
Qed.

(** A call resolves with [fromCache: false] only through the listing at the
    origin, which stores the set and stamps the limiter. *)
Lemma listAvailableTimestamps_remote (ftp : Ftp Buffer) st now radarId resolution maxResults force l :
  answer (listAvailableTimestamps ftp st now radarId resolution maxResults force) = inr l ->
  listFromCache l = false ->
  meta_after (listAvailableTimestamps ftp st now radarId resolution maxResults force)
  = updateTimestampRefreshTime
      (metaCache_set st now (timestampsCacheKey radarId resolution) (timestamps l)) now radarId
  /\ nextRefreshIn l = TIMESTAMP_REFRESH_INTERVAL / 1000
  /\ connections (listAvailableTimestamps ftp st now radarId resolution maxResults force) = 1%nat.
Proof.
  rewrite listAvailableTimestamps_unfold. cbv zeta.
  repeat case_match; cbn; intros [= <-]; cbn; intros; try discriminate; auto.
Qed.

(** C6 (as amended). A call without [force], for a resolution that has a
    suffix, while the limiter holds refreshes back (the last refresh of the
    radar is less than TIMESTAMP_REFRESH_INTERVAL ago): when a cached set
    exists for the cache key it is returned from the cache with the
    remaining wait and without the [rateLimited] property, and the origin is
    not contacted; when none exists the call throws the rate-limit error,
    whose message carries the wait in seconds, and the state is what the
    lookup left (a set found expired is gone).  A call with [force] contacts
    the origin whatever the limiter and the cache hold. *)
Theorem limited_listing_prefers_cache (ftp : Ftp Buffer) st now radarId resolution maxResults suffix :
  RESOLUTION_SUFFIX resolution = Some suffix ->
  (forall last,
     lastTimestampRefresh st !! radarId = Some last -> last <> 0 ->
     now - last < TIMESTAMP_REFRESH_INTERVAL ->
     (forall ts,
        (metaCache_get st now (timestampsCacheKey radarId resolution)).1 = Some ts ->
        listAvailableTimestamps ftp st now radarId resolution maxResults false
        = mkList (inr (mkListing ts true (getTimeUntilNextRefresh st now radarId) None)) st 0)
     /\ ((metaCache_get st now (timestampsCacheKey radarId resolution)).1 = None ->
         listAvailableTimestamps ftp st now radarId resolution maxResults false
         = mkList (inl (rateLimitError (getTimeUntilNextRefresh st now radarId) radarId))
             (metaCache_get st now (timestampsCacheKey radarId resolution)).2 0))
  /\ connections (listAvailableTimestamps ftp st now radarId resolution maxResults true) = 1%nat.
Proof.
  intros Hs. split.
  - intros last Hl Hne Hwait. split.
    + intros ts Hc. rewrite listAvailableTimestamps_unfold, Hs. cbv zeta.
      rewrite Hc. reflexivity.
    + intros Hc. rewrite listAvailableTimestamps_unfold, Hs. cbv zeta. rewrite Hc.
      rewrite (canRefreshTimestamps_stamped _ _ _ _ Hl Hne).
      destruct (Z.leb_spec TIMESTAMP_REFRESH_INTERVAL (now - last)); [lia | reflexivity].
  - rewrite listAvailableTimestamps_unfold, Hs. cbv zeta.
    destruct (metaCache_get st now (timestampsCacheKey radarId resolution)).1;
      cbn [negb andb]; repeat case_match; reflexivity.
Qed.

(** C9. The limiter is looked up by radar, the cached sets by radar and
    resolution.  After a listing of resolution [a] went through at [t1], a
    call without [force] for another resolution [b] of the same radar, made
    less than TIMESTAMP_REFRESH_INTERVAL later while nothing is cached for
    [b], throws the rate-limit error and does not contact the origin; the
    state is what the lookup of [b] left. *)
Theorem limiter_shared_by_resolutions
    (ftp ftp' : Ftp Buffer) st0 t1 t2 radarId a b maxA maxB forceA la suffix :
  answer (listAvailableTimestamps ftp st0 t1 radarId a maxA forceA) = inr la ->
  listFromCache la = false ->
  a <> b ->
  RESOLUTION_SUFFIX b = Some suffix ->
  (metaCache_get st0 t2 (timestampsCacheKey radarId b)).1 = None ->
  t1 <> 0 ->
  t2 - t1 < TIMESTAMP_REFRESH_INTERVAL ->
  let st1 := meta_after (listAvailableTimestamps ftp st0 t1 radarId a maxA forceA) in
  listAvailableTimestamps ftp' st1 t2 radarId b maxB false
  = mkList (inl (rateLimitError (getTimeUntilNextRefresh st1 t2 radarId) radarId))
      (metaCache_get st1 t2 (timestampsCacheKey radarId b)).2 0.
Proof.
  intros Hans Hremote Hab Hs Hnone Ht1 Hwithin st1.
  destruct (listAvailableTimestamps_remote _ _ _ _ _ _ _ _ Hans Hremote) as (Hst1 & _ & _).
  fold st1 in Hst1.
  assert (Hl : lastTimestampRefresh st1 !! radarId = Some t1).
  { rewrite Hst1. cbn. apply lookup_insert_eq. }
  assert (Hc : (metaCache_get st1 t2 (timestampsCacheKey radarId b)).1 = None).
  { rewrite Hst1. unfold metaCache_get in *. cbn.
    rewrite lookup_insert_ne
      by (intros Heq; apply Hab; exact (timestampsCacheKey_inj _ _ _ Heq)).
    repeat case_match; cbn in *; congruence. }
  rewrite listAvailableTimestamps_unfold, Hs. cbv zeta. rewrite Hc.
  rewrite (canRefreshTimestamps_stamped _ _ _ _ Hl Ht1).
  destruct (Z.leb_spec TIMESTAMP_REFRESH_INTERVAL (t2 - t1)); [lia | reflexivity].
Qed.

(** C10. Every listing that went through at the origin, forced or not,
    stamps the radar's last refresh with the time of the call and reports
    the whole interval, in seconds, as the time to the next refresh; from
    then on the limiter lets a call without [force] through exactly when a
    full TIMESTAMP_REFRESH_INTERVAL has passed since that call. *)
Theorem listing_stamps_last_refresh (ftp : Ftp Buffer) st now radarId resolution maxResults force l :
  answer (listAvailableTimestamps ftp st now radarId resolution maxResults force) = inr l ->
  listFromCache l = false ->
  let st' := meta_after (listAvailableTimestamps ftp st now radarId resolution maxResults force) in
  lastTimestampRefresh st' !! radarId = Some now
  /\ nextRefreshIn l * 1000 = TIMESTAMP_REFRESH_INTERVAL
  /\ (now <> 0 ->
      forall later,
        canRefreshTimestamps st' later radarId = true
        <-> TIMESTAMP_REFRESH_INTERVAL <= later - now)
  /\ (now <> 0 -> 0 <= TIMESTAMP_REFRESH_INTERVAL ->
      getTimeUntilNextRefresh st' now radarId = nextRefreshIn l).
Proof.
  intros Hans Hremote st'.
  destruct (listAvailableTimestamps_remote _ _ _ _ _ _ _ _ Hans Hremote) as (Hst' & Hnext & _).
  fold st' in Hst'.
  assert (Hl : lastTimestampRefresh st' !! radarId = Some now).
  { rewrite Hst'. cbn. apply lookup_insert_eq. }
  split; [exact Hl |]. split; [rewrite Hnext; apply refresh_interval_seconds |]. split.
  - intros Hne later. rewrite (canRefreshTimestamps_stamped _ _ _ _ Hl Hne).
    apply Z.leb_le.
  - intros Hne Hpos. rewrite (getTimeUntilNextRefresh_stamped _ _ _ _ Hl Hne), Hnext.
    rewrite Z.sub_diag, Z.sub_0_r, <- refresh_interval_seconds at 1.
    rewrite Qceiling_seconds_whole.
    pose proof refresh_interval_seconds. lia.
Qed.

End Listing.

(** ** The sweeps *)

Section Sweeps.

Context {Buffer : Type} `{host : Host Buffer}.

Abbreviation Disk := (gmap string (File Buffer)).

Lemma over_budget (totalSize : Z) :
  Qlt_bool (inject_Z MAX_CACHE_SIZE_MB) (inject_Z totalSize / 1024 / 1024)%Q
  = (MAX_CACHE_SIZE_MB * 1048576 <? totalSize).
Proof.
  unfold Qlt_bool, Qle_bool, Qdiv, Qmult, Qinv, inject_Z; simpl.
  rewrite Z.ltb_antisym. f_equal.
  apply eq_true_iff_eq. rewrite !Z.leb_le. lia.
Qed.

Lemma at_target (remaining : Z) :
  Qle_bool (inject_Z remaining) (inject_Z MAX_CACHE_SIZE_MB * 0.8 * 1024 * 1024)%Q
  = (5 * remaining <=? 4 * MAX_CACHE_SIZE_MB * 1048576).
Proof.
  unfold Qle_bool, Qmult, inject_Z; simpl.
  apply eq_true_iff_eq. rewrite !Z.leb_le. lia.
Qed.

Lemma stat_no_faults (d : Disk) name :
  fs_stat no_faults d name
  = (fun f => mkStats (Buffer_length (content f)) (mtimeMs f)) <$> d !! name.
Proof. reflexivity. Qed.

Lemma unlink_no_faults (d : Disk) name f :
  d !! name = Some f -> fs_unlink no_faults d name = Some (delete name d).
Proof. intros Hf. unfold fs_unlink, no_faults. rewrite Hf. reflexivity. Qed.

(** *** The size of the store *)

Lemma storeSize_delete (d : Disk) name f :
  d !! name = Some f ->
  storeSize d
  = (if isObject name then Buffer_length (content f) else 0) + storeSize (delete name d).
Proof.
  intros Hf. unfold storeSize.
  rewrite (map_fold_delete_L _ _ name f d); [destruct (isObject name); lia | | exact Hf].
  intros j1 j2 z1 z2 y _ _ _. destruct (isObject j1), (isObject j2); lia.
Qed.

Lemma storeSize_no_objects (d : Disk) :
  (forall name f, d !! name = Some f -> isObject name = false) -> storeSize d = 0.
Proof.
  induction d as [| name f d Hfresh IH] using map_ind; intros Hno.
  - apply map_fold_empty.
  - unfold storeSize. rewrite map_fold_insert_L.
    + rewrite (Hno name f) by apply lookup_insert_eq.
      apply IH. intros name' f' Hf'. apply (Hno name' f').
      rewrite lookup_insert_ne; [exact Hf' | congruence].
    + intros j1 j2 z1 z2 y _ _ _. destruct (isObject j1), (isObject j2); lia.
    + exact Hfresh.
Qed.

Lemma lists_cons name files (d : Disk) :
  lists (name :: files) d -> is_Some (d !! name) /\ lists files (delete name d).
Proof.
  intros [Hnd Hdom]. apply NoDup_cons in Hnd as [Hnotin Hnd].
  split; [apply Hdom; left |]. split; [exact Hnd |].
  intros g. destruct (decide (g = name)) as [-> | Hne].
  - rewrite lookup_delete_eq. split; [contradiction | intros [? [=]]].
  - rewrite lookup_delete_ne by congruence. rewrite <- Hdom.
    rewrite elem_of_cons. tauto.
Qed.

Lemma fileStatsOf_delete (d : Disk) name files :
  name ∉ files -> fileStatsOf (delete name d) files = fileStatsOf d files.
Proof.
  induction files as [| g files IH]; intros Hnotin; [reflexivity |].
  apply not_elem_of_cons in Hnotin as [Hne Hnotin].
  unfold fileStatsOf in *. cbn [omap list_omap].
  rewrite lookup_delete_ne by congruence. rewrite IH by exact Hnotin. reflexivity.
Qed.

Lemma storeSize_lists files (d : Disk) :
  lists files d -> storeSize d = sumSizes (fileStatsOf d files).
Proof.
  revert d. induction files as [| name files IH]; intros d Hl.
  - apply storeSize_no_objects. intros name f Hf.
    destruct Hl as [_ Hdom]. exfalso.
    apply (not_elem_of_nil name), Hdom. eauto.
  - pose proof Hl as [Hnd _]. apply NoDup_cons in Hnd as [Hnotin _].
    apply lists_cons in Hl as [[f Hf] Hrest].
    rewrite (storeSize_delete d name f Hf), (IH _ Hrest), (fileStatsOf_delete _ _ _ Hnotin).
    unfold fileStatsOf at 2. cbn [omap list_omap]. rewrite Hf.
    fold (fileStatsOf d files).
    destruct (isObject name); cbn [fmap option_fmap option_map sumSizes foldr size_];
      reflexivity.
Qed.

(** *** The scan *)

Lemma scanFiles_no_faults (d : Disk) files totalSize stats :
  (forall name, name ∈ files -> is_Some (d !! name)) ->
  scanFiles no_faults d files totalSize stats
  = inr (totalSize + sumSizes (fileStatsOf d files), stats ++ fileStatsOf d files).
Proof.
  revert totalSize stats. induction files as [| name files IH]; intros totalSize stats Hall.
  - cbn. rewrite Z.add_0_r, app_nil_r. reflexivity.
  - cbn [scanFiles]. unfold fileStatsOf. cbn [omap list_omap]. fold (isObject name).
    destruct (Hall name) as [f Hf]; [left |].
    assert (Hrest : forall g, g ∈ files -> is_Some (d !! g)) by (intros g Hg; apply Hall; right; exact Hg).
    destruct (isObject name); cbn [negb].
    + rewrite stat_no_faults, Hf. cbn. rewrite (IH _ _ Hrest).
      fold (fileStatsOf d files). rewrite <- app_assoc. cbn.
      fold (sumSizes (fileStatsOf d files)). rewrite Z.add_assoc. reflexivity.
    + rewrite (IH _ _ Hrest). reflexivity.
Qed.

Lemma elem_of_fileStatsOf (d : Disk) files e :
  e ∈ fileStatsOf d files
  <-> path e ∈ files /\ isObject (path e) = true
      /\ exists f, d !! path e = Some f /\ e = mkFileStat (path e) (Buffer_length (content f)) (mtimeMs f).
Proof.
  unfold fileStatsOf. rewrite list_elem_of_omap. split.
  - intros (name & Hin & Hsome).
    destruct (isObject name) eqn:Hobj; [| discriminate].
    destruct (d !! name) as [f |] eqn:Hf; [| discriminate].
    cbn in Hsome. injection Hsome as <-. cbn. eauto 6.
  - intros (Hin & Hobj & f & Hf & He). exists (path e).
    rewrite Hobj, Hf. cbn. rewrite <- He. auto.
Qed.

Lemma fileStatsOf_paths_NoDup (d : Disk) files :
  NoDup files -> NoDup (path <$> fileStatsOf d files).
Proof.
  induction 1 as [| name files Hnotin Hnd IH]; [constructor |].
  unfold fileStatsOf. cbn [omap list_omap].
  destruct (isObject name); [| exact IH].
  destruct (d !! name) as [f |]; [| exact IH].
  cbn. constructor; [| exact IH].
  intros Hin. apply list_elem_of_fmap in Hin as (e & Hp & He).
  apply elem_of_fileStatsOf in He as (He & _). cbn in Hp. subst name. contradiction.
Qed.

(** *** The sort *)

Lemma insertByMtime_perm x l : insertByMtime x l ≡ₚ x :: l.
Proof.
  induction l as [| y l IH]; [reflexivity |].
  cbn. destruct (mtime x <=? mtime y); [reflexivity |].
  rewrite IH. apply Permutation_swap.
Qed.

Lemma sortByMtime_perm l : sortByMtime l ≡ₚ l.
Proof.
  induction l as [| x l IH]; [reflexivity |].
  cbn. rewrite insertByMtime_perm. f_equiv. exact IH.
Qed.

Lemma insertByMtime_sorted x l :
  StronglySorted olderOrEqual l -> StronglySorted olderOrEqual (insertByMtime x l).
Proof.
  induction 1 as [| y l Hs IH Hall]; cbn.
  - repeat constructor.
  - destruct (Z.leb_spec (mtime x) (mtime y)).
    + constructor; [constructor; assumption |].
      constructor; [assumption |].
      eapply Forall_impl; [exact Hall |]. unfold olderOrEqual. intros; cbn in *; lia.
    + constructor; [exact IH |].
      rewrite insertByMtime_perm. constructor; [unfold olderOrEqual; lia | exact Hall].
Qed.

Lemma sortByMtime_sorted l : StronglySorted olderOrEqual (sortByMtime l).
Proof.
  induction l as [| x l IH]; [constructor |].
  cbn. apply insertByMtime_sorted. exact IH.
Qed.

(** *** The eviction loop *)

Lemma evictFiles_spec (totalSize : Z) l :
  forall (d : Disk) freed del,
    0 <= MAX_CACHE_SIZE_MB ->
    NoDup (path <$> l) ->
    StronglySorted olderOrEqual l ->
    (forall e, e ∈ l ->
       isObject (path e) = true
       /\ exists f, d !! path e = Some f
                    /\ size_ e = Buffer_length (content f) /\ mtime e = mtimeMs f) ->
    (forall g gf, isObject g = true -> d !! g = Some gf -> g ∈ path <$> l) ->
    totalSize - freed = storeSize d ->
    let s := evictFiles no_faults totalSize
               (inject_Z MAX_CACHE_SIZE_MB * 0.8 * 1024 * 1024)%Q l d freed del in
    exists victims,
      swept s = unlinkAll victims d
      /\ caught s = None
      /\ evictedInOrder d victims
      /\ 5 * storeSize (swept s) <= 4 * MAX_CACHE_SIZE_MB * 1048576.
Proof.
  induction l as [| e l IH]; intros d freed del HMAX Hnd Hsorted Hin Hall Hsize;
    cbn [evictFiles].
  - exists []. cbn. split; [reflexivity |]. split; [reflexivity |]. split.
    + intros pre name post Heq. destruct pre; discriminate.
    + rewrite storeSize_no_objects; [lia |].
      intros name f Hf. destruct (isObject name) eqn:Hobj; [| reflexivity].
      exfalso. apply (not_elem_of_nil name). exact (Hall name f Hobj Hf).
  - rewrite at_target.
    destruct (Z.leb_spec (5 * (totalSize - freed)) (4 * MAX_CACHE_SIZE_MB * 1048576))
      as [Hdone | Hover].
    + exists []. cbn. split; [reflexivity |]. split; [reflexivity |]. split.
      * intros pre name post Heq. destruct pre; discriminate.
      * rewrite <- Hsize. exact Hdone.
    + destruct (Hin e) as (Hobj & f & Hf & Hsz & Hmt); [left |].
      rewrite (unlink_no_faults _ _ _ Hf).
      rewrite fmap_cons in Hnd. apply NoDup_cons in Hnd as [Hfresh Hnd].
      apply StronglySorted_inv in Hsorted as [Hsorted Holder].
      assert (Hne : forall e', e' ∈ l -> path e' <> path e).
      { intros e' He' Heq. apply Hfresh. rewrite <- Heq. apply list_elem_of_fmap_2. exact He'. }
      destruct (IH (delete (path e) d) (freed + size_ e) (del + 1) HMAX Hnd Hsorted)
        as (victims & Hsw & Hc & Hord & Hfin).
      * intros e' He'. destruct (Hin e') as (Hobj' & f' & Hf' & Hrest); [right; exact He' |].
        split; [exact Hobj' |]. exists f'.
        rewrite lookup_delete_ne by (intros Heq; exact (Hne e' He' (eq_sym Heq))).
        split; [exact Hf' | exact Hrest].
      * intros g gf Hg Hgf. apply lookup_delete_Some in Hgf as [Hgne Hgf].
        specialize (Hall g gf Hg Hgf). rewrite fmap_cons in Hall.
        apply elem_of_cons in Hall as [-> | Hall]; [contradiction | exact Hall].
      * rewrite (storeSize_delete d (path e) f Hf), Hobj in Hsize. lia.
      * exists (path e :: victims). split; [exact Hsw |]. split; [exact Hc |].
        split; [| exact Hfin].
        intros pre name post Heq. destruct pre as [| p pre]; cbn in Heq.
        -- injection Heq as <- _. cbn. split; [| lia].
           split; [exact Hobj |]. exists f. split; [exact Hf |].
           intros g gf Hg Hgf. specialize (Hall g gf Hg Hgf).
           apply list_elem_of_fmap in Hall as (e' & -> & He').
           apply elem_of_cons in He' as [-> | He'].
           ++ rewrite Hf in Hgf. injection Hgf as <-. lia.
           ++ destruct (Hin e') as (_ & f' & Hf' & _ & Hmt'); [right; exact He' |].
              rewrite Hf' in Hgf. injection Hgf as <-.
              rewrite Forall_forall in Holder. specialize (Holder e' He').
              unfold olderOrEqual in Holder. lia.
        -- injection Heq as <- ->. exact (Hord pre name post eq_refl).
Qed.

(** C4. On a directory listed in full, with a budget that is not negative
    and no file operation failing: when the objects together take no more
    than MAX_CACHE_SIZE_MB the sweep deletes nothing; when they take more, it
    unlinks objects one after the other, each an oldest object, by
    modification time, of those still there, each while the rest was still
    above 80 % of the budget, and ends with the store at or below 80 % of
    the budget. *)
Theorem size_sweep_evicts_oldest_first files (d : Disk) :
  lists files d ->
  0 <= MAX_CACHE_SIZE_MB ->
  let s := checkCacheSize no_faults files d in
  caught s = None
  /\ (storeSize d <= MAX_CACHE_SIZE_MB * 1048576 -> swept s = d)
  /\ (MAX_CACHE_SIZE_MB * 1048576 < storeSize d ->
      exists victims,
        swept s = unlinkAll victims d
        /\ evictedInOrder d victims
        /\ 5 * storeSize (swept s) <= 4 * MAX_CACHE_SIZE_MB * 1048576).
Proof.
  intros Hl HMAX. pose proof Hl as [Hnd Hdom].
  unfold checkCacheSize.
  rewrite scanFiles_no_faults by (intros name Hin; apply Hdom; exact Hin).
  cbn [app]. rewrite Z.add_0_l, over_budget, <- (storeSize_lists _ _ Hl).
  destruct (Z.ltb_spec (MAX_CACHE_SIZE_MB * 1048576) (storeSize d)) as [Hover | Hfits].
  - destruct (evictFiles_spec (storeSize d) (sortByMtime (fileStatsOf d files)) d 0 0 HMAX)
      as (victims & Hsw & Hc & Hord & Hfin).
    + rewrite sortByMtime_perm. apply fileStatsOf_paths_NoDup. exact Hnd.
    + apply sortByMtime_sorted.
    + intros e He. rewrite sortByMtime_perm in He.
      apply elem_of_fileStatsOf in He as (_ & Hobj & f & Hf & ->). cbn. eauto.
    + intros g gf Hg Hgf. rewrite sortByMtime_perm.
      apply (list_elem_of_fmap_2' path _ (mkFileStat g (Buffer_length (content gf)) (mtimeMs gf)));
        [| reflexivity].
      apply elem_of_fileStatsOf. cbn. split; [apply Hdom; eauto | eauto].
    + lia.
    + cbn zeta. split; [exact Hc |]. split; [lia |]. intros _. eauto.
  - cbn. split; [reflexivity |]. split; [reflexivity | lia].
Qed.

(** *** The TTL sweep *)

Lemma cleanupFiles_no_faults now files :
  forall (d : Disk) del freed,
    NoDup files ->
    (forall name, name ∈ files -> is_Some (d !! name)) ->
    let s := cleanupFiles no_faults now files d del freed in
    caught s = None
    /\ forall g,
         swept s !! g
         = match d !! g with
           | Some f =>
               if bool_decide (g ∈ files) && isObject g
                  && (DISK_CACHE_TTL * 1000 <? now - mtimeMs f)
               then None else Some f
           | None => None
           end.
Proof.
  induction files as [| name files IH]; intros d del freed Hnd Hall; cbn [cleanupFiles].
  - cbn. split; [reflexivity |]. intros g. destruct (d !! g); reflexivity.
  - apply NoDup_cons in Hnd as [Hfresh Hnd].
    destruct (Hall name) as [f Hf]; [left |].
    assert (Hrest : forall g, g ∈ files -> is_Some (d !! g))
      by (intros g Hg; apply Hall; right; exact Hg).
    assert (Hhere : forall g, bool_decide (g ∈ name :: files)
                              = bool_decide (g = name) || bool_decide (g ∈ files)).
    { intros g. apply eq_true_iff_eq.
      rewrite orb_true_iff, !bool_decide_eq_true, elem_of_cons. tauto. }
    fold (isObject name). destruct (isObject name) eqn:Hobj; cbn [negb].
    + rewrite stat_no_faults, Hf; cbn [fmap option_fmap option_map st_mtimeMs st_size].
      rewrite ttl_lt_seconds.
      destruct (DISK_CACHE_TTL * 1000 <? now - mtimeMs f) eqn:Hexp.
      * rewrite (unlink_no_faults _ _ _ Hf).
        destruct (IH (delete name d) (del + 1) (freed + Buffer_length (content f)) Hnd)
          as [Hc Hlook].
        { intros g Hg. rewrite lookup_delete_ne by (intros ->; contradiction).
          apply Hrest. exact Hg. }
        split; [exact Hc |]. intros g. rewrite Hlook, Hhere.
        destruct (decide (g = name)) as [-> | Hne].
        -- rewrite lookup_delete_eq, Hf, Hobj, Hexp.
           rewrite bool_decide_eq_true_2 by reflexivity. reflexivity.
        -- rewrite lookup_delete_ne by congruence.
           rewrite (bool_decide_eq_false_2 (g = name)) by exact Hne. reflexivity.
      * destruct (IH d del freed Hnd Hrest) as [Hc Hlook].
        split; [exact Hc |]. intros g. rewrite Hlook, Hhere.
        destruct (decide (g = name)) as [-> | Hne].
        -- rewrite Hf, Hexp, !andb_false_r. reflexivity.
        -- rewrite (bool_decide_eq_false_2 (g = name)) by exact Hne. reflexivity.
    + destruct (IH d del freed Hnd Hrest) as [Hc Hlook].
      split; [exact Hc |]. intros g. rewrite Hlook, Hhere.
      destruct (decide (g = name)) as [-> | Hne].
      * rewrite Hf, Hobj, !andb_false_r. reflexivity.
      * rewrite (bool_decide_eq_false_2 (g = name)) by exact Hne. reflexivity.
Qed.

(** What one TTL sweep does when nothing fails: it removes the objects whose
    file is older than DISK_CACHE_TTL, strictly, and nothing else. *)
Lemma ttl_sweep_removes_older_objects files (d : Disk) now name f :
  lists files d ->
  d !! name = Some f ->
  swept (cleanupCache no_faults files d now) !! name
  = if isObject name && (DISK_CACHE_TTL * 1000 <? now - mtimeMs f) then None else Some f.
Proof.
  intros [Hnd Hdom] Hf. unfold cleanupCache.
  destruct (cleanupFiles_no_faults now files d 0 0 Hnd) as [_ Hlook].
  { intros g Hg. apply Hdom. exact Hg. }
  rewrite Hlook, Hf.
  rewrite bool_decide_eq_true_2 by (apply Hdom; eauto). reflexivity.
Qed.

(** *** Failures *)






End Sweeps.

(** ** The servers on a host in UTC *)

Lemma lists_by_dom {Buffer : Type} (files : list string) (d : gmap string (File Buffer)) :
  NoDup files -> dom d = list_to_set files -> lists files d.
Proof.
  intros Hnd Hdom. split; [exact Hnd |].
  intros name. rewrite <- elem_of_dom, Hdom, elem_of_list_to_set. reflexivity.
Qed.

Section Scenarios.

#[local] Existing Instance utcHost.

(** C1, a counterexample.  The image of 14:30 is downloaded at 14:38:20 and
    served from the cache at 14:39:10; at 14:41:40 the key is still current
    and the file is 200 s old, yet the add-on server downloads it again. *)
Lemma current_object_redownloaded_within_ten_minutes :
  let r1 := getRadarImage no_faults steadyFtp ∅ (at1430 + 500000) "IDR023" "202410231430" 128 in
  let r2 := getRadarImage no_faults steadyFtp (disk_after r1) (at1430 + 550000)
              "IDR023" "202410231430" 128 in
  let r3 := getRadarImage no_faults steadyFtp (disk_after r2) (at1430 + 700000)
              "IDR023" "202410231430" 128 in
  returned r1 = inr (mkImage [(137, 1); (0, 4095)] false 0 (Some 500) 128)
  /\ servedFromCache r2 = true
  /\ isCurrentAt (at1430 + 700000) "202410231430" = true
  /\ mtimeMs <$> disk_after r2 !! image1430 = Some (at1430 + 500000)
  /\ servedFromCache r3 = false
  /\ downloads r3 = 1%nat.
Proof. vm_compute. repeat split; reflexivity. Qed.

Lemma current_object_ten_minute_rule_witness :
  getRadarImage no_faults steadyFtp {[image1430 := mkFile [(137, 1)] (at1430 + 500000)]}
    (at1430 + 700000) "IDR023" "202410231430" 128
  = downloadAndStore no_faults steadyFtp
      (delete image1430 {[image1430 := mkFile [(137, 1)] (at1430 + 500000)]})
      (at1430 + 700000) "IDR023" "202410231430" 128.
Proof.
  destruct (current_object_ten_minute_rule no_faults steadyFtp
              {[image1430 := mkFile [(137, 1)] (at1430 + 500000)]}
              (at1430 + 700000) "IDR023" "202410231430" 128 at1430) as [Hnew _].
  - vm_compute; reflexivity.
  - vm_compute; reflexivity.
  - destruct (Hnew (mkFile [(137, 1)] (at1430 + 500000))) as [_ Hstale].
    + vm_compute; reflexivity.
    + intros op; reflexivity.
    + vm_compute; reflexivity.
    + vm_compute; reflexivity.
    + apply Hstale. vm_compute. discriminate.
Defined.

Lemma historical_object_served_from_cache_witness :
  Forall (fun r => (exists image, returned r = inr image /\ fromCache image = true
                                  /\ buffer image = [(137, 1); (0, 4095)])
                   /\ downloads r = 0%nat
                   /\ disk_after r
                      = disk_after (getRadarImage no_faults steadyFtp ∅ (at1430 + 1800000)
                                      "IDR023" "202410231430" 128))
    (getRepeatedly no_faults steadyFtp
       (disk_after (getRadarImage no_faults steadyFtp ∅ (at1430 + 1800000)
                      "IDR023" "202410231430" 128))
       [at1430 + 1800001; at1430 + 7200000; at1430 + 88199999]
       "IDR023" "202410231430" 128).
Proof.
  apply (historical_object_served_from_cache no_faults steadyFtp ∅
           "IDR023" "202410231430" 128 (at1430 + 1800000) at1430
           (mkImage [(137, 1); (0, 4095)] false 0 (Some 1800) 128)).
  - intros op; reflexivity.
  - vm_compute; reflexivity.
  - vm_compute; discriminate.
  - vm_compute; reflexivity.
  - reflexivity.
  - repeat constructor; vm_compute; first [reflexivity | discriminate].
Defined.

Lemma expired_object_is_a_miss_witness :
  getRadarImage no_faults steadyFtp {[image1430 := mkFile [(137, 1)] at1430]}
    (at1430 + 86400000) "IDR023" "202410231430" 128
  = mkGet (inr (mkImage [(137, 1); (0, 4095)] false 0 (Some 86400) 128))
      (<[image1430 := mkFile [(137, 1); (0, 4095)] (at1430 + 86400000)]>
         {[image1430 := mkFile [(137, 1)] at1430]})
      1 true.
Proof.
  destruct (expired_object_is_a_miss no_faults steadyFtp
              {[image1430 := mkFile [(137, 1)] at1430]}
              (at1430 + 86400000) "IDR023" "202410231430" 128 (mkFile [(137, 1)] at1430))
    as (_ & _ & Hfresh).
  - vm_compute; reflexivity.
  - intros op; reflexivity.
  - vm_compute; reflexivity.
  - vm_compute; discriminate.
  - apply Hfresh. vm_compute; reflexivity.
Defined.

Lemma failed_download_persists_nothing_witness :
  getRadarImage no_faults brokenFtp {[image1430 := mkFile [(137, 1)] at1430]}
    (at1430 + 86400000) "IDR023" "202410231430" 128
  = mkGet (inl (mkError "Connection reset" None)) ∅ 1 false.
Proof.
  destruct (failed_download_persists_nothing no_faults brokenFtp
              {[image1430 := mkFile [(137, 1)] at1430]}
              (at1430 + 86400000) "IDR023" "202410231430" 128) as (Hfail & _ & _).
  - vm_compute; reflexivity.
  - destruct (Hfail ∅ (mkError "Connection reset" None)) as [Hget _].
    + vm_compute; reflexivity.
    + vm_compute; reflexivity.
    + exact Hget.
Defined.

(** C2, the object the TTL sweep leaves.  A file exactly DISK_CACHE_TTL old
    is kept by the sweep, which asks for [age > DISK_CACHE_TTL], and is
    unlinked by [getRadarImage] at the same instant, which asks for
    [fileCacheAge >= DISK_CACHE_TTL]. *)
Lemma ttl_sweep_keeps_object_aged_exactly_ttl :
  let d : gmap string (File Runs) := {[image1430 := mkFile [(137, 1)] at1430]} in
  let now := at1430 + 86400000 in
  now - at1430 = DISK_CACHE_TTL * 1000
  /\ lists [image1430] d
  /\ cleanupCache no_faults [image1430] d now = mkSweep d 0 0 None
  /\ cacheCheck no_faults d now "IDR023" "202410231430" 128 = CacheMiss ∅.
Proof.
  cbv zeta. split; [vm_compute; reflexivity |]. split; [| split].
  - apply lists_by_dom; [repeat constructor; apply not_elem_of_nil | vm_compute; reflexivity].
  - vm_compute; reflexivity.
  - vm_compute; reflexivity.
Qed.


Lemma size_sweep_evicts_oldest_first_witness :
  let files := [image1430; "IDR023_202410231330_128.png"; "IDR023_202410231230_128.png"]%string in
  exists victims,
    swept (checkCacheSize no_faults files fullStore) = unlinkAll victims fullStore
    /\ evictedInOrder fullStore victims
    /\ 5 * storeSize (swept (checkCacheSize no_faults files fullStore))
       <= 4 * MAX_CACHE_SIZE_MB * 1048576.
Proof.
  cbv zeta.
  destruct (size_sweep_evicts_oldest_first
              [image1430; "IDR023_202410231330_128.png"; "IDR023_202410231230_128.png"]%string
              fullStore) as (_ & _ & Hover).
  - apply lists_by_dom; [| vm_compute; reflexivity].
    apply (bool_decide_unpack _). vm_compute. exact I.
  - vm_compute; discriminate.
  - apply Hover. vm_compute; reflexivity.
Defined.

(** C6, a counterexample.  Five minutes after a listing the limiter holds
    refreshes back and a set is cached: the call returns the set without
    the [rateLimited] property. *)
Lemma cached_set_returned_without_rate_limit_tag :
  let st1 := meta_after (listAvailableTimestamps steadyFtp (mkMeta ∅ ∅) at1430
                           "IDR023" 128 20 false) in
  let now := at1430 + 300000 in
  canRefreshTimestamps st1 now "IDR023" = false
  /\ (metaCache_get st1 now (timestampsCacheKey "IDR023" 128)).1
     = Some ["202410231430"; "202410231424"; "202410231418"]%string
  /\ listAvailableTimestamps steadyFtp st1 now "IDR023" 128 20 false
     = mkList (inr (mkListing ["202410231430"; "202410231424"; "202410231418"]%string
                      true 300 None))
         st1 0.
Proof. vm_compute. repeat split; reflexivity. Qed.

Lemma limited_listing_prefers_cache_witness :
  let st1 := meta_after (listAvailableTimestamps steadyFtp (mkMeta ∅ ∅) at1430
                           "IDR023" 128 20 false) in
  listAvailableTimestamps steadyFtp st1 (at1430 + 300000) "IDR023" 128 20 false
  = mkList (inr (mkListing ["202410231430"; "202410231424"; "202410231418"]%string true
                   (getTimeUntilNextRefresh st1 (at1430 + 300000) "IDR023") None))
      st1 0
  /\ connections (listAvailableTimestamps steadyFtp st1 (at1430 + 300000) "IDR023" 128 20 true)
     = 1%nat.
Proof.
  cbv zeta.
  destruct (limited_listing_prefers_cache steadyFtp
              (meta_after (listAvailableTimestamps steadyFtp (mkMeta ∅ ∅) at1430
                             "IDR023" 128 20 false))
              (at1430 + 300000) "IDR023" 128 20 "2") as [Hlimited Hforce].
  - reflexivity.
  - split; [| exact Hforce].
    destruct (Hlimited at1430) as [Hcached _].
    + vm_compute; reflexivity.
    + vm_compute; discriminate.
    + vm_compute; reflexivity.
    + apply Hcached. vm_compute; reflexivity.
Defined.

Lemma limiter_shared_by_resolutions_witness :
  let st1 := meta_after (listAvailableTimestamps steadyFtp (mkMeta ∅ ∅) at1430
                           "IDR023" 128 20 false) in
  listAvailableTimestamps steadyFtp st1 (at1430 + 300000) "IDR023" 256 20 false
  = mkList (inl (rateLimitError (getTimeUntilNextRefresh st1 (at1430 + 300000) "IDR023")
                   "IDR023"))
      st1 0.
Proof.
  cbv zeta.
  rewrite (limiter_shared_by_resolutions steadyFtp steadyFtp (mkMeta ∅ ∅) at1430
             (at1430 + 300000) "IDR023" 128 256 20 20 false
             (mkListing ["202410231430"; "202410231424"; "202410231418"]%string false 600 None)
             "3").
  - vm_compute; reflexivity.
  - vm_compute; reflexivity.
  - reflexivity.
  - discriminate.
  - reflexivity.
  - vm_compute; reflexivity.
  - vm_compute; discriminate.
  - vm_compute; reflexivity.
Defined.

Lemma listing_stamps_last_refresh_witness :
  let st1 := meta_after (listAvailableTimestamps steadyFtp (mkMeta ∅ ∅) at1430
                           "IDR023" 128 20 true) in
  lastTimestampRefresh st1 !! "IDR023"%string = Some at1430
  /\ 600 * 1000 = TIMESTAMP_REFRESH_INTERVAL
  /\ (canRefreshTimestamps st1 (at1430 + 599999) "IDR023" = true
      <-> TIMESTAMP_REFRESH_INTERVAL <= at1430 + 599999 - at1430).
Proof.
  cbv zeta.
  destruct (listing_stamps_last_refresh steadyFtp (mkMeta ∅ ∅) at1430 "IDR023" 128 20 true
              (mkListing ["202410231430"; "202410231424"; "202410231418"]%string false 600 None))
    as (Hstamp & Hnext & Hgate & _).
  - vm_compute; reflexivity.
  - reflexivity.
  - split; [exact Hstamp |]. split; [exact Hnext |].
    apply Hgate. vm_compute; discriminate.
Defined.


End Scenarios.

(** ** More on the image store *)

Section ImageStoreFrame.

Context {Buffer : Type} `{host : Host Buffer}.

Abbreviation Disk := (gmap string (File Buffer)).

(** The second [try] block writes to the file of the key and to no other,
    also when the write fails half-way. *)
Lemma downloadAndStore_disk flt ftp (d : Disk) now radarId timestamp resolution other :
  other <> imageCachePath radarId timestamp resolution ->
  disk_after (downloadAndStore flt ftp d now radarId timestamp resolution) !! other
  = d !! other.
Proof.
  intros Hne. unfold downloadAndStore, fs_writeFile.
  destruct (downloadFromFTP ftp radarId timestamp resolution) as [e | buf]; [reflexivity |].
  destruct (flt WriteFile _); cbn [disk_after].
  - apply lookup_partial_alter_ne. congruence.
  - apply lookup_insert_ne. congruence.
Qed.

(** X1. A call of [getRadarImage] changes no file but the one of its own
    key: every other name of the cache directory holds after the call what
    it held before, whatever fails and whatever the origin answers. *)
Theorem getRadarImage_touches_own_file_only
    flt ftp (d : Disk) now radarId timestamp resolution other :
  other <> imageCachePath radarId timestamp resolution ->
  disk_after (getRadarImage flt ftp d now radarId timestamp resolution) !! other = d !! other.
Proof.
  intros Hne. unfold getRadarImage.
  destruct (includes SUPPORTED_RESOLUTIONS resolution); cbn [negb]; [| reflexivity].
  destruct (cacheCheck flt d now radarId timestamp resolution) as [r | d1] eqn:Hcc;
    [reflexivity |].
  assert (Hd1 : d1 !! other = d !! other).
  { destruct (cacheCheck_miss_disk _ _ _ _ _ _ _ Hcc) as [-> | ->]; [reflexivity |].
    apply lookup_delete_ne. congruence. }
  rewrite (downloadAndStore_disk flt ftp d1 now radarId timestamp resolution other Hne).
  exact Hd1.
Qed.

(** X2. What is answered from the cache is what is on disk: a result with
    [fromCache = true] carries the bytes of the file of the key, that file
    is younger than DISK_CACHE_TTL, [cacheAge] is its age in whole seconds,
    the key is not current or its image is less than ten minutes old, the
    origin was not called, the directory is unchanged and no size check was
    started. *)
Theorem cache_answer_is_the_stored_object
    flt ftp (d : Disk) now radarId timestamp resolution image :
  returned (getRadarImage flt ftp d now radarId timestamp resolution) = inr image ->
  fromCache image = true ->
  (exists f,
     d !! imageCachePath radarId timestamp resolution = Some f
     /\ buffer image = content f
     /\ now - mtimeMs f < DISK_CACHE_TTL * 1000
     /\ cacheAge image = Qfloor (seconds (now - mtimeMs f)))
  /\ (isCurrentAt now timestamp = false
      \/ js_lt (imageAgeAt now timestamp) (seconds CURRENT_IMAGE_REFRESH_INTERVAL) = true)
  /\ getRadarImage flt ftp d now radarId timestamp resolution = mkGet (inr image) d 0 false.
Proof.
  unfold getRadarImage.
  destruct (includes SUPPORTED_RESOLUTIONS resolution); cbn [negb]; [| discriminate].
  destruct (cacheCheck flt d now radarId timestamp resolution) as [r | d1] eqn:Hcc.
  - cbn. intros [= ->] _. split; [| split; [| reflexivity]].
    + unfold cacheCheck, fs_stat, fs_readFile in Hcc.
      destruct (flt Stat _); [discriminate |].
      destruct (d !! imageCachePath radarId timestamp resolution) as [f |] eqn:Hf;
        [| discriminate].
      cbn in Hcc. rewrite ttl_le_seconds in Hcc.
      destruct (Z.leb_spec (DISK_CACHE_TTL * 1000) (now - mtimeMs f));
        [repeat case_match; discriminate |].
      destruct (negb _ || _); [| repeat case_match; discriminate].
      destruct (flt ReadFile _); [discriminate |].
      cbn in Hcc. injection Hcc as <-. exists f. cbn. auto.
    + unfold cacheCheck in Hcc.
      destruct (isCurrentAt now timestamp); [| left; reflexivity].
      cbn [negb orb] in Hcc. right.
      destruct (js_lt _ _); [reflexivity |].
      repeat case_match; discriminate.
  - intros Hret Hfrom.
    apply downloadAndStore_returned in Hret as [Hremote _]. congruence.
Qed.

(** X3. [checkCacheSize ()] is started exactly by the calls that wrote a
    new object: those return the downloaded bytes with [fromCache = false]
    and [cacheAge = 0] after one call of the origin, and the file of the key
    then holds these bytes with the time of the call. *)
Theorem size_check_follows_every_store
    flt ftp (d : Disk) now radarId timestamp resolution :
  let r := getRadarImage flt ftp d now radarId timestamp resolution in
  sizeCheckStarted r = true
  <-> exists image,
        returned r = inr image /\ fromCache image = false /\ cacheAge image = 0
        /\ downloads r = 1%nat
        /\ disk_after r !! imageCachePath radarId timestamp resolution
           = Some (mkFile (buffer image) now).
Proof.
  cbv zeta. unfold getRadarImage.
  destruct (includes SUPPORTED_RESOLUTIONS resolution); cbn [negb].
  - destruct (cacheCheck flt d now radarId timestamp resolution) as [r | d1] eqn:Hcc.
    + cbn. split; [discriminate |]. intros (image & [= ->] & Hfrom & _).
      rewrite (cacheCheck_hit_fromCache _ _ _ _ _ _ _ Hcc) in Hfrom. discriminate.
    + unfold downloadAndStore, fs_writeFile.
      destruct (downloadFromFTP ftp radarId timestamp resolution) as [e | buf]; cbn.
      * split; [discriminate | intros (image & [=] & _)].
      * destruct (flt WriteFile _); cbn.
        -- split; [discriminate | intros (image & [=] & _)].
        -- split; [| reflexivity]. intros _. eexists. split; [reflexivity |].
           cbn. rewrite lookup_insert_eq. auto.
  - cbn. split; [discriminate | intros (image & [=] & _)].
Qed.

(** X4. The only errors a call throws are the refusal of an unsupported
    resolution (nothing touched, the origin not called), the error of the
    download, and, after a download that went through, the error with which
    the write of the file rejected.  A [stat], [unlink] or [readFile] that
    fails while the cache is looked up is never thrown: when [stat] fails
    the call is the download on the directory as it is; when [readFile]
    fails the call goes to the origin; when [unlink] fails the call is
    answered from the cache, which needed no [unlink], or is the download
    on the directory as it is. *)
Theorem getRadarImage_error_sources
    flt ftp (d : Disk) now radarId timestamp resolution :
  let r := getRadarImage flt ftp d now radarId timestamp resolution in
  let cachePath := imageCachePath radarId timestamp resolution in
  (forall e,
     returned r = inl e ->
     (includes SUPPORTED_RESOLUTIONS resolution = false
      /\ disk_after r = d /\ downloads r = 0%nat)
     \/ (includes SUPPORTED_RESOLUTIONS resolution = true
         /\ downloads r = 1%nat
         /\ downloadFromFTP ftp radarId timestamp resolution = inl e)
     \/ (includes SUPPORTED_RESOLUTIONS resolution = true
         /\ downloads r = 1%nat
         /\ flt WriteFile cachePath = true
         /\ exists buf,
              downloadFromFTP ftp radarId timestamp resolution = inr buf
              /\ e = writeFile_error cachePath buf now))
  /\ (includes SUPPORTED_RESOLUTIONS resolution = true ->
      (flt Stat cachePath = true ->
       r = downloadAndStore flt ftp d now radarId timestamp resolution)
      /\ (flt ReadFile cachePath = true ->
          downloads r = 1%nat /\ servedFromCache r = false)
      /\ (flt Unlink cachePath = true ->
          servedFromCache r = true
          \/ r = downloadAndStore flt ftp d now radarId timestamp resolution)).
Proof.
  cbv zeta. split.
  - intros e. unfold getRadarImage.
    destruct (includes SUPPORTED_RESOLUTIONS resolution); cbn [negb]; [| auto].
    destruct (cacheCheck flt d now radarId timestamp resolution) as [r | d1]; [discriminate |].
    unfold downloadAndStore, fs_writeFile.
    destruct (downloadFromFTP ftp radarId timestamp resolution) as [e' | buf]; cbn.
    + intros [= ->]. auto.
    + destruct (flt WriteFile _) eqn:Hw; cbn; [| discriminate].
      intros [= <-]. right; right. eauto 6.
  - intros Hres. rewrite (getRadarImage_supported _ _ _ _ _ _ _ Hres).
    assert (Hdl : forall d1,
              downloads (downloadAndStore flt ftp d1 now radarId timestamp resolution) = 1%nat
              /\ servedFromCache (downloadAndStore flt ftp d1 now radarId timestamp resolution)
                 = false).
    { intros d1. unfold downloadAndStore, fs_writeFile, servedFromCache.
      repeat case_match; cbn in *; simplify_eq; auto. }
    split; [| split].
    + intros Hstat. unfold cacheCheck, fs_stat. rewrite Hstat. reflexivity.
    + intros Hread.
      assert (Hmiss : exists d1, cacheCheck flt d now radarId timestamp resolution = CacheMiss d1).
      { unfold cacheCheck, fs_readFile. rewrite Hread. repeat case_match; eauto. }
      destruct Hmiss as [d1 ->]. apply Hdl.
    + intros Hunlink.
      destruct (cacheCheck flt d now radarId timestamp resolution) as [image | d1] eqn:Hcc.
      * left. exact (cacheCheck_hit_fromCache _ _ _ _ _ _ _ Hcc).
      * right. f_equal. unfold cacheCheck, fs_unlink in Hcc. rewrite Hunlink in Hcc.
        repeat case_match; simplify_eq; reflexivity.
Qed.

Lemma cacheCheck_hit_content flt (d : Disk) now radarId timestamp resolution r :
  cacheCheck flt d now radarId timestamp resolution = CacheHit r ->
  exists f, d !! imageCachePath radarId timestamp resolution = Some f /\ content f = buffer r.
Proof.
  unfold cacheCheck, fs_stat, fs_readFile.
  destruct (flt Stat _); [discriminate |].
  destruct (d !! imageCachePath radarId timestamp resolution) as [f |]; [| discriminate].
  cbn. repeat case_match; intros [= <-]; simplify_eq. eauto.
Qed.

(** X5. Every answer leaves its bytes in the cache: after a call that returns
    an image, from the cache or from the origin, the file of the key holds
    the bytes returned. *)
Theorem answered_bytes_are_cached flt ftp (d : Disk) now radarId timestamp resolution image :
  returned (getRadarImage flt ftp d now radarId timestamp resolution) = inr image ->
  exists f,
    disk_after (getRadarImage flt ftp d now radarId timestamp resolution)
    !! imageCachePath radarId timestamp resolution = Some f
    /\ content f = buffer image.
Proof.
  unfold getRadarImage.
  destruct (includes SUPPORTED_RESOLUTIONS resolution); cbn [negb]; [| discriminate].
  destruct (cacheCheck flt d now radarId timestamp resolution) as [r | d1] eqn:Hcc.
  - cbn. intros [= ->]. exact (cacheCheck_hit_content _ _ _ _ _ _ _ Hcc).
  - intros Hret. apply downloadAndStore_returned in Hret as [_ ->].
    rewrite lookup_insert_eq. eauto.
Qed.

(** X7. The errors of the download inside a call are the origin's: every
    resolution [getRadarImage] accepts has a suffix, so the name of the file
    at the origin can always be built, and a download that fails has failed
    to connect, was refused by the origin, or broke off while the file named
    [FTP_PATH], radar, suffix, [.T.], timestamp, [.png] was being sent. *)
Theorem download_errors_are_the_origins (ftp : Ftp Buffer) radarId timestamp resolution e :
  includes SUPPORTED_RESOLUTIONS resolution = true ->
  downloadFromFTP ftp radarId timestamp resolution = inl e ->
  exists suffix,
    RESOLUTION_SUFFIX resolution = Some suffix
    /\ (connectFTP ftp = inl e
        \/ ftp_get ftp (FTP_PATH +:+ radarId +:+ suffix +:+ ".T." +:+ timestamp +:+ ".png")
           = GetError e
        \/ exists chunks,
             ftp_get ftp (FTP_PATH +:+ radarId +:+ suffix +:+ ".T." +:+ timestamp +:+ ".png")
             = GetStream chunks (Some e)).
Proof.
  intros Hres Hdl.
  assert (Hs : exists suffix, RESOLUTION_SUFFIX resolution = Some suffix).
  { unfold includes, SUPPORTED_RESOLUTIONS in Hres. cbn in Hres.
    repeat (apply orb_true_iff in Hres as [Hres | Hres];
            [apply Z.eqb_eq in Hres as ->; cbn; eauto |]).
    discriminate. }
  destruct Hs as [suffix Hs]. exists suffix. split; [exact Hs |].
  unfold downloadFromFTP, buildRadarUrl in Hdl. rewrite Hs in Hdl.
  destruct (connectFTP ftp) as [e' | []]; [injection Hdl as ->; auto |].
  destruct (ftp_get ftp _) as [e' | chunks [e' |]] eqn:Hget;
    [injection Hdl as -> | injection Hdl as -> | discriminate]; eauto.
Qed.

(** X6. An image between ten and thirty minutes old, by the timestamp in its
    name, is never answered from the cache: every call for it, whatever is
    on disk and whatever fails, calls the origin once. *)
Theorem ageing_current_image_is_always_downloaded
    flt ftp (d : Disk) now radarId timestamp resolution T :
  includes SUPPORTED_RESOLUTIONS resolution = true ->
  parseTimestamp timestamp = Some T ->
  CURRENT_IMAGE_REFRESH_INTERVAL <= now - T < CURRENT_IMAGE_THRESHOLD * 1000 ->
  downloads (getRadarImage flt ftp d now radarId timestamp resolution) = 1%nat
  /\ servedFromCache (getRadarImage flt ftp d now radarId timestamp resolution) = false.
Proof.
  intros Hres HT [Hold Hcur].
  rewrite (getRadarImage_supported _ _ _ _ _ _ _ Hres).
  assert (Hmiss : exists d1, cacheCheck flt d now radarId timestamp resolution = CacheMiss d1).
  { unfold cacheCheck.
    rewrite (isCurrentAt_parsed _ _ _ HT), (imageAgeAt_parsed _ _ _ HT). cbn [js_lt].
    rewrite seconds_lt_seconds.
    destruct (Z.ltb_spec (now - T) (CURRENT_IMAGE_THRESHOLD * 1000)); [| lia].
    destruct (Z.ltb_spec (now - T) CURRENT_IMAGE_REFRESH_INTERVAL); [lia |].
    cbn [negb orb]. repeat case_match; eauto. }
  destruct Hmiss as [d1 ->].
  unfold downloadAndStore, servedFromCache. repeat case_match; cbn in *; simplify_eq; auto.
Qed.

(** X23. The stand-alone server answers from the cache only what is on disk:
    the bytes of the file of the key, younger than 24 hours, and, for a key
    that is current, written less than ten minutes ago; the origin is not
    called and the directory is unchanged. *)
Theorem Legacy_cache_answer_is_the_stored_object
    flt ftp (d : Disk) now radarId timestamp image :
  Legacy.returned (Legacy.getRadarImage flt ftp d now radarId timestamp) = inr image ->
  Legacy.fromCache image = true ->
  (exists f,
     d !! Legacy.imageCachePath radarId timestamp = Some f
     /\ Legacy.buffer image = content f
     /\ now - mtimeMs f < Legacy.DISK_CACHE_TTL * 1000
     /\ (js_lt (imageAgeAt now timestamp) (inject_Z Legacy.CURRENT_IMAGE_THRESHOLD) = false
         \/ now - mtimeMs f < Legacy.CURRENT_IMAGE_REFRESH_INTERVAL))
  /\ Legacy.getRadarImage flt ftp d now radarId timestamp = Legacy.mkGet (inr image) d 0.
Proof.
  unfold Legacy.getRadarImage.
  destruct (Legacy.cacheCheck flt d now radarId timestamp) as [r | d1] eqn:Hcc.
  - cbn. intros [= ->] _. split; [| reflexivity].
    unfold Legacy.cacheCheck, fs_stat, fs_readFile in Hcc.
    destruct (flt Stat _); [discriminate |].
    destruct (d !! Legacy.imageCachePath radarId timestamp) as [f |] eqn:Hf; [| discriminate].
    cbn in Hcc. rewrite ttl_le_seconds in Hcc.
    destruct (Z.leb_spec (Legacy.DISK_CACHE_TTL * 1000) (now - mtimeMs f));
      [repeat case_match; discriminate |].
    rewrite seconds_lt_seconds in Hcc.
    destruct (js_lt (imageAgeAt now timestamp) (inject_Z Legacy.CURRENT_IMAGE_THRESHOLD))
      eqn:Hcur; cbn [negb orb] in Hcc.
    + destruct (Z.ltb_spec (now - mtimeMs f) Legacy.CURRENT_IMAGE_REFRESH_INTERVAL);
        [| repeat case_match; discriminate].
      destruct (flt ReadFile _); [discriminate |].
      cbn in Hcc. injection Hcc as <-. exists f. cbn. auto.
    + destruct (flt ReadFile _); [discriminate |].
      cbn in Hcc. injection Hcc as <-. exists f. cbn. auto.
  - unfold Legacy.downloadAndStore, fs_writeFile.
    repeat case_match; cbn; intros [= <-]; cbn; discriminate.
Qed.

End ImageStoreFrame.

(** ** More on the limiter and the listing *)

Lemma Qceiling_seconds (ms : Z) : Qceiling (seconds ms) = - (- ms / 1000).
Proof. reflexivity. Qed.

Lemma Qceiling_seconds_bounds (ms : Z) :
  ms <= 1000 * Qceiling (seconds ms) < ms + 1000.
Proof.
  rewrite Qceiling_seconds.
  pose proof (Z.div_mod (- ms) 1000 ltac:(lia)).
  pose proof (Z.mod_pos_bound (- ms) 1000 ltac:(lia)). lia.
Qed.

Section ListingFrame.

Context {Buffer : Type} `{host : Host Buffer}.

(** X8. The limiter and the wait it reports agree: a refresh is let through
    exactly when the reported wait is zero, and the wait is never
    negative. *)
Theorem refresh_allowed_iff_no_wait st now radarId :
  (canRefreshTimestamps st now radarId = true
   <-> getTimeUntilNextRefresh st now radarId = 0)
  /\ 0 <= getTimeUntilNextRefresh st now radarId.
Proof.
  unfold canRefreshTimestamps, getTimeUntilNextRefresh.
  destruct (falsy (lastTimestampRefresh st !! radarId)); [split; [tauto | lia] |].
  set (since := now - default 0 (lastTimestampRefresh st !! radarId)).
  pose proof (Qceiling_seconds_bounds (TIMESTAMP_REFRESH_INTERVAL - since)).
  rewrite Z.leb_le. split; lia.
Qed.

(** X9. The wait reported is exact: after that many seconds the limiter
    lets a refresh through, and one second earlier it does not.  When the
    clock has not gone back since the last refresh, the wait is at most the
    interval. *)
Theorem reported_wait_is_exact st now radarId :
  let wait := getTimeUntilNextRefresh st now radarId in
  canRefreshTimestamps st (now + 1000 * wait) radarId = true
  /\ (0 < wait -> canRefreshTimestamps st (now + 1000 * (wait - 1)) radarId = false)
  /\ (forall last,
        lastTimestampRefresh st !! radarId = Some last -> last <= now ->
        0 <= TIMESTAMP_REFRESH_INTERVAL ->
        1000 * wait <= TIMESTAMP_REFRESH_INTERVAL).
Proof.
  cbv zeta. unfold canRefreshTimestamps, getTimeUntilNextRefresh.
  destruct (lastTimestampRefresh st !! radarId) as [last |] eqn:Hl.
  - destruct (Z.eq_dec last 0) as [-> | Hne].
    + cbn. split; [reflexivity |]. split; [lia |].
      intros ? _ _ ?. lia.
    + assert (Hf : falsy (Some last) = false)
        by (destruct last; [congruence | reflexivity | reflexivity]).
      rewrite Hf. cbn [default from_option]. unfold id. cbv zeta.
      pose proof (Qceiling_seconds_bounds (TIMESTAMP_REFRESH_INTERVAL - (now - last))) as Hc.
      pose proof refresh_interval_seconds as Hwhole.
      split; [apply Z.leb_le; lia |]. split.
      * intros Hpos. apply Z.leb_gt. lia.
      * intros ? [= <-] Hmono Hint.
        assert (Qceiling (seconds (TIMESTAMP_REFRESH_INTERVAL - (now - last)))
                <= TIMESTAMP_REFRESH_INTERVAL / 1000); [| lia].
        rewrite <- (Qceiling_seconds_whole (TIMESTAMP_REFRESH_INTERVAL / 1000)).
        apply Qceiling_resp_le. unfold Qle, seconds; cbn. lia.
  - cbn. split; [reflexivity |]. split; [lia |]. intros ? [=].
Qed.

(** X10. A call contacts the origin at most once, and without [force] only
    when nothing is cached for its key and the limiter lets it through. *)
Theorem origin_contacted_only_when_allowed
    (ftp : Ftp Buffer) st now radarId resolution maxResults force :
  let r := listAvailableTimestamps ftp st now radarId resolution maxResults force in
  (connections r <= 1)%nat
  /\ (force = false -> connections r = 1%nat ->
      (metaCache_get st now (timestampsCacheKey radarId resolution)).1 = None
      /\ canRefreshTimestamps st now radarId = true).
Proof.
  cbv zeta. rewrite listAvailableTimestamps_unfold.
  destruct (RESOLUTION_SUFFIX resolution) as [suffix |]; [| cbn; split; [lia | discriminate]].
  cbv zeta.
  destruct (metaCache_get st now (timestampsCacheKey radarId resolution)).1 as [ts |],
    force; cbn [negb andb];
    destruct (canRefreshTimestamps st now radarId); cbn [negb];
    repeat case_match; cbn; split; try lia; try discriminate; auto.
Qed.

(** What a lookup leaves: the state as it was, or the state without the
    entry of the key, which had expired. *)
Lemma metaCache_get_state st now key :
  (metaCache_get st now key).2 = st
  \/ exists entry,
       metaCache st !! key = Some entry /\ t entry <> 0 /\ t entry < now
       /\ (metaCache_get st now key).2
          = mkMeta (delete key (metaCache st)) (lastTimestampRefresh st).
Proof.
  unfold metaCache_get.
  destruct (metaCache st !! key) as [entry |] eqn:Hk; [| left; reflexivity].
  destruct (Z.eqb_spec (t entry) 0); cbn [negb andb]; [left; reflexivity |].
  destruct (Z.ltb_spec (t entry) now); [| left; reflexivity].
  right. exists entry. auto.
Qed.

Lemma metaCache_get_other st now key other :
  other <> key -> metaCache (metaCache_get st now key).2 !! other = metaCache st !! other.
Proof.
  intros Hne. destruct (metaCache_get_state st now key) as [-> | (entry & _ & _ & _ & ->)];
    [reflexivity |].
  cbn. apply lookup_delete_ne. congruence.
Qed.

(** X11. Only a listing that went through at the origin writes to the
    state.  A call that throws, be it the rate-limit error or an error of
    the origin, leaves the limiter as it was, and the cached sets as they
    were but for the set of its own key when the lookup found it expired:
    that one the lookup has deleted.  A call answered from the cache leaves
    the whole state as it was and does not contact the origin.  A listing
    that fails therefore does not start a new interval. *)
Theorem state_changes_only_on_remote_listing
    (ftp : Ftp Buffer) st now radarId resolution maxResults force :
  let r := listAvailableTimestamps ftp st now radarId resolution maxResults force in
  let cacheKey := timestampsCacheKey radarId resolution in
  (forall e,
     answer r = inl e ->
     lastTimestampRefresh (meta_after r) = lastTimestampRefresh st
     /\ (meta_after r = st
         \/ exists entry,
              metaCache st !! cacheKey = Some entry /\ t entry <> 0 /\ t entry < now
              /\ metaCache (meta_after r) = delete cacheKey (metaCache st)))
  /\ (forall l, answer r = inr l -> listFromCache l = true ->
      meta_after r = st /\ connections r = 0%nat).
Proof.
  cbv zeta. rewrite listAvailableTimestamps_unfold.
  destruct (RESOLUTION_SUFFIX resolution) as [suffix |];
    [| cbn; split; [auto | discriminate]].
  cbv zeta.
  pose proof (metaCache_get_Some st now (timestampsCacheKey radarId resolution)) as Hsome.
  pose proof (metaCache_get_limiter st now (timestampsCacheKey radarId resolution)) as Hlim.
  pose proof (metaCache_get_state st now (timestampsCacheKey radarId resolution)) as Hstate.
  destruct (metaCache_get st now (timestampsCacheKey radarId resolution)) as [cached st'].
  cbn [fst snd] in *.
  assert (Hleft : lastTimestampRefresh st' = lastTimestampRefresh st
                  /\ (st' = st
                      \/ exists entry,
                           metaCache st !! timestampsCacheKey radarId resolution = Some entry
                           /\ t entry <> 0 /\ t entry < now
                           /\ metaCache st'
                              = delete (timestampsCacheKey radarId resolution) (metaCache st))).
  { split; [exact Hlim |].
    destruct Hstate as [-> | (entry & H1 & H2 & H3 & ->)]; [left; reflexivity |].
    right. exists entry. auto. }
  split.
  - intros e. repeat case_match; cbn; intros [=]; exact Hleft.
  - intros l. repeat case_match; cbn; intros [= <-]; cbn; try discriminate;
      intros _; split; try reflexivity; apply Hsome; reflexivity.
Qed.

(** X12. A call changes nothing but the cached set of its own cache key and
    the last refresh of its own radar. *)
Theorem listing_touches_own_entries_only
    (ftp : Ftp Buffer) st now radarId resolution maxResults force :
  let r := listAvailableTimestamps ftp st now radarId resolution maxResults force in
  (forall key, key <> timestampsCacheKey radarId resolution ->
     metaCache (meta_after r) !! key = metaCache st !! key)
  /\ (forall other, other <> radarId ->
        lastTimestampRefresh (meta_after r) !! other = lastTimestampRefresh st !! other).
Proof.
  cbv zeta. rewrite listAvailableTimestamps_unfold.
  destruct (RESOLUTION_SUFFIX resolution) as [suffix |]; [| split; reflexivity].
  cbv zeta.
  pose proof (metaCache_get_other st now (timestampsCacheKey radarId resolution)) as Hother.
  pose proof (metaCache_get_limiter st now (timestampsCacheKey radarId resolution)) as Hlim.
  destruct (metaCache_get st now (timestampsCacheKey radarId resolution)) as [cached st'].
  cbn [fst snd] in *.
  split; intros k Hne; repeat case_match; cbn [meta_after]; try reflexivity;
    first [ apply (Hother _ Hne)
          | rewrite Hlim; reflexivity
          | cbn; apply lookup_insert_ne; congruence ].
Qed.

(** X13. After a listing of a radar and resolution went through at the
    origin, a call without [force] for the same radar and resolution, made
    up to a full interval later, is answered from the cache with the very
    timestamps of that listing, without contacting the origin and without
    changing the state.  (The cached set lives
    [stdTTL = TIMESTAMP_REFRESH_INTERVAL / 1000] seconds in node-cache.) *)
Theorem listed_pair_is_served_from_cache
    (ftp ftp' : Ftp Buffer) st now radarId resolution maxResults maxResults' force l later :
  answer (listAvailableTimestamps ftp st now radarId resolution maxResults force) = inr l ->
  listFromCache l = false ->
  later <= now + TIMESTAMP_REFRESH_INTERVAL ->
  let st' := meta_after (listAvailableTimestamps ftp st now radarId resolution maxResults force) in
  listAvailableTimestamps ftp' st' later radarId resolution maxResults' false
  = mkList (inr (mkListing (timestamps l) true
                   (getTimeUntilNextRefresh st' later radarId) None)) st' 0.
Proof.
  intros Hans Hremote Hearly st'.
  destruct (listAvailableTimestamps_remote _ _ _ _ _ _ _ _ Hans Hremote) as (Hst' & _ & _).
  fold st' in Hst'.
  assert (Hs : exists suffix, RESOLUTION_SUFFIX resolution = Some suffix).
  { unfold listAvailableTimestamps in Hans.
    destruct (RESOLUTION_SUFFIX resolution); [eauto | discriminate]. }
  destruct Hs as [suffix Hs].
  assert (Hentry : metaCache st' !! timestampsCacheKey radarId resolution
                   = Some (mkEntry (timestamps l) (now + TIMESTAMP_REFRESH_INTERVAL))).
  { rewrite Hst'. cbn. apply lookup_insert_eq. }
  rewrite listAvailableTimestamps_unfold, Hs. cbv zeta.
  unfold metaCache_get. rewrite Hentry. cbn [t value].
  destruct (Z.ltb_spec (now + TIMESTAMP_REFRESH_INTERVAL) later); [lia |].
  rewrite andb_false_r. reflexivity.
Qed.

(** X14. The window in which the limiter refuses.  [metaCache.set] gives
    the cached set of a pair the time [setAt] + TIMESTAMP_REFRESH_INTERVAL,
    where [setAt] is its reading of the clock, and
    [updateTimestampRefreshTime] stamps the radar with a reading of its
    own, [stampAt]; a listing of another resolution of the radar stamps it
    again.  In a state that holds such a set and such a stamp, a call
    without [force] for the pair is answered from the cache up to
    [setAt] + TIMESTAMP_REFRESH_INTERVAL, is refused with the rate-limit
    error while the clock is past that and before
    [stampAt] + TIMESTAMP_REFRESH_INTERVAL, and goes to the origin from then
    on.  The refusals last as long as the stamp is later than the set: when
    both were written in the same millisecond there is none. *)
Theorem refusal_window_after_a_listing
    (ftp : Ftp Buffer) st setAt stampAt radarId resolution suffix ts maxResults now :
  RESOLUTION_SUFFIX resolution = Some suffix ->
  metaCache st !! timestampsCacheKey radarId resolution
  = Some (mkEntry ts (setAt + TIMESTAMP_REFRESH_INTERVAL)) ->
  lastTimestampRefresh st !! radarId = Some stampAt ->
  stampAt <> 0 ->
  setAt + TIMESTAMP_REFRESH_INTERVAL <> 0 ->
  let r := listAvailableTimestamps ftp st now radarId resolution maxResults false in
  (now <= setAt + TIMESTAMP_REFRESH_INTERVAL ->
   r = mkList (inr (mkListing ts true (getTimeUntilNextRefresh st now radarId) None)) st 0)
  /\ (setAt + TIMESTAMP_REFRESH_INTERVAL < now < stampAt + TIMESTAMP_REFRESH_INTERVAL ->
      answer r = inl (rateLimitError (getTimeUntilNextRefresh st now radarId) radarId)
      /\ connections r = 0%nat)
  /\ (setAt + TIMESTAMP_REFRESH_INTERVAL < now ->
      stampAt + TIMESTAMP_REFRESH_INTERVAL <= now ->
      connections r = 1%nat)
  /\ (setAt = stampAt ->
      forall e, answer r = inl e -> connections r = 1%nat).
Proof.
  intros Hs Hentry Hl Hstamp Hnz r.
  assert (Hr : r = listAvailableTimestamps ftp st now radarId resolution maxResults false)
    by reflexivity.
  rewrite listAvailableTimestamps_unfold, Hs in Hr. cbv zeta in Hr.
  rewrite (canRefreshTimestamps_stamped _ _ _ _ Hl Hstamp) in Hr.
  unfold metaCache_get in Hr. rewrite Hentry in Hr. cbn [t value] in Hr.
  destruct (Z.eqb_spec (setAt + TIMESTAMP_REFRESH_INTERVAL) 0); [contradiction |].
  cbn [negb andb] in Hr.
  destruct (Z.ltb_spec (setAt + TIMESTAMP_REFRESH_INTERVAL) now) as [Hexp | Hlive];
    cbn [fst snd] in Hr.
  - destruct (Z.leb_spec TIMESTAMP_REFRESH_INTERVAL (now - stampAt)) as [Hopen | Hshut];
      cbn [negb] in Hr.
    + assert (Hone : connections r = 1%nat) by (rewrite Hr; repeat case_match; reflexivity).
      split; [lia |]. split; [lia |]. split; auto.
    + split; [lia |]. split; [intros _; rewrite Hr; split; reflexivity |].
      split; [lia |]. intros ->. lia.
  - split; [intros _; exact Hr |]. split; [lia |]. split; [lia |].
    intros _ e. rewrite Hr. discriminate.
Qed.

End ListingFrame.

(** ** Strings: names at the origin and timestamps *)

Lemma length_append (s1 s2 : string) :
  String.length (s1 +:+ s2) = (String.length s1 + String.length s2)%nat.
Proof. induction s1 as [| c s1 IH]; simpl; [reflexivity | f_equal; exact IH]. Qed.

Lemma substring_0_append (s1 s2 : string) :
  String.substring 0 (String.length s1) (s1 +:+ s2) = s1.
Proof.
  induction s1 as [| c s1 IH]; simpl; [destruct s2; reflexivity |].
  f_equal. exact IH.
Qed.

Lemma substring_skip_append (s1 s2 : string) (n m : nat) :
  String.substring (String.length s1 + n) m (s1 +:+ s2) = String.substring n m s2.
Proof. induction s1 as [| c s1 IH]; simpl; [reflexivity | exact IH]. Qed.

Lemma substring_whole (s : string) : String.substring 0 (String.length s) s = s.
Proof. induction s as [| c s IH]; simpl; [reflexivity | f_equal; exact IH]. Qed.

Lemma substring_length (s : string) (n m : nat) :
  (n + m <= String.length s)%nat -> String.length (String.substring n m s) = m.
Proof.
  revert n m. induction s as [| c s IH]; intros n m Hlen; simpl in Hlen.
  - assert (n = 0%nat) by lia. assert (m = 0%nat) by lia. subst. reflexivity.
  - destruct n as [| n]; simpl.
    + destruct m as [| m]; simpl; [reflexivity |]. f_equal. apply IH. lia.
    + apply IH. lia.
Qed.

(** A string is its first [n] characters followed by the rest. *)
Lemma substring_split (s : string) (n m : nat) :
  (n + m = String.length s)%nat ->
  s = String.substring 0 n s +:+ String.substring n m s.
Proof.
  revert n m. induction s as [| c s IH]; intros n m Hlen; simpl in Hlen.
  - assert (n = 0%nat) by lia. assert (m = 0%nat) by lia. subst. reflexivity.
  - destruct n as [| n]; simpl.
    + destruct m as [| m]; [discriminate |].
      injection Hlen as Hlen. subst m. simpl. rewrite substring_whole. reflexivity.
    + change (String c s = String c (String.substring 0 n s +:+ String.substring n m s)).
      f_equal. apply IH. lia.
Qed.

Lemma substring_add (s : string) (n a b : nat) :
  (n + a + b <= String.length s)%nat ->
  String.substring n (a + b) s = String.substring n a s +:+ String.substring (n + a) b s.
Proof.
  revert n a b. induction s as [| c s IH]; intros n a b Hlen; simpl in Hlen.
  - assert (n = 0%nat) by lia. assert (a = 0%nat) by lia. assert (b = 0%nat) by lia.
    subst. reflexivity.
  - destruct n as [| n]; simpl.
    + destruct a as [| a]; [reflexivity |].
      change (String c (String.substring 0 (a + b) s)
              = String c (String.substring 0 a s +:+ String.substring (0 + a) b s)).
      f_equal. apply (IH 0%nat a b). lia.
    + apply IH. lia.
Qed.

Lemma allDigits_append (s1 s2 : string) :
  allDigits (s1 +:+ s2) = allDigits s1 && allDigits s2.
Proof.
  induction s1 as [| c s1 IH]; simpl; [reflexivity |].
  rewrite <- andb_assoc. f_equal. exact IH.
Qed.

Lemma allDigits_substring (s : string) (n m : nat) :
  allDigits s = true -> allDigits (String.substring n m s) = true.
Proof.
  revert n m. induction s as [| c s IH]; intros n m Hd.
  - destruct n, m; reflexivity.
  - simpl in Hd. apply andb_true_iff in Hd as [Hc Hs].
    destruct n as [| n]; simpl.
    + destruct m as [| m]; simpl; [reflexivity |].
      apply andb_true_iff. split; [exact Hc | apply IH; exact Hs].
    + apply IH. exact Hs.
Qed.

(** The name pattern of the listing, in full: a name yields a timestamp just
    when it is the radar, the suffix, [.T.], twelve digits and [.png]. *)
Lemma matchTimestamp_spec (radarId suffix name ts : string) :
  matchTimestamp radarId suffix name = Some ts
  <-> name = (radarId +:+ suffix +:+ ".T.") +:+ ts +:+ ".png"
      /\ String.length ts = 12%nat /\ allDigits ts = true.
Proof.
  unfold matchTimestamp.
  set (pre := radarId +:+ suffix +:+ ".T."). set (k := String.length pre).
  split.
  - destruct (Nat.eqb_spec (String.length name) (k + 16)) as [Hlen |]; [| discriminate].
    destruct (String.eqb_spec (String.substring 0 k name) pre) as [Hpre |]; [| discriminate].
    destruct (allDigits (String.substring k 12 name)) eqn:Hdig; [| discriminate].
    destruct (String.eqb_spec (String.substring (k + 12) 4 name) ".png") as [Hpng |];
      [| discriminate].
    cbn. intros [= <-]. split; [| split; [apply substring_length; lia | exact Hdig]].
    etransitivity; [apply (substring_split name k 16); lia |].
    assert (H16 : String.substring k 16 name
                  = String.substring k 12 name +:+ String.substring (k + 12) 4 name)
      by (apply (substring_add name k 12 4); lia).
    rewrite H16, Hpre, Hpng. reflexivity.
  - intros (-> & Hlen & Hdig).
    assert (H1 : String.length (pre +:+ ts +:+ ".png") = (k + 16)%nat)
      by (rewrite !length_append, Hlen; reflexivity).
    assert (H2 : String.substring 0 k (pre +:+ ts +:+ ".png") = pre)
      by apply substring_0_append.
    assert (H3 : String.substring k 12 (pre +:+ ts +:+ ".png") = ts).
    { replace k with (String.length pre + 0)%nat by (unfold k; lia).
      rewrite substring_skip_append, <- Hlen. apply substring_0_append. }
    assert (H4 : String.substring (k + 12) 4 (pre +:+ ts +:+ ".png") = ".png"%string).
    { unfold k. rewrite substring_skip_append.
      replace 12%nat with (String.length ts + 0)%nat by lia.
      rewrite substring_skip_append. reflexivity. }
    rewrite H1, H2, H3, H4, Hdig, Nat.eqb_refl, String.eqb_refl. reflexivity.
Qed.

Section Names.

Context {Buffer : Type} `{host : Host Buffer}.

(** X15. The listing and the download agree on names: a listed name yields
    a timestamp exactly when it is the file name [buildRadarUrl] builds for
    that radar, resolution and timestamp, the timestamp being twelve
    digits.  Every timestamp a listing returns can so be asked for under the
    name it was listed with. *)
Theorem listed_name_is_download_name (radarId name ts suffix : string) (resolution : Z) :
  RESOLUTION_SUFFIX resolution = Some suffix ->
  (matchTimestamp radarId suffix name = Some ts
   <-> buildRadarUrl radarId ts resolution = inr (name, FTP_PATH +:+ name)
       /\ String.length ts = 12%nat /\ allDigits ts = true).
Proof.
  intros Hs. rewrite matchTimestamp_spec. unfold buildRadarUrl. rewrite Hs.
  assert (Happ : forall a b c : string, (a +:+ b) +:+ c = a +:+ (b +:+ c)).
  { intros a b c. induction a as [| x a IH]; [reflexivity |].
    change (String x ((a +:+ b) +:+ c) = String x (a +:+ (b +:+ c))).
    f_equal. exact IH. }
  split.
  - intros (-> & Hlen & Hdig). rewrite !Happ. auto.
  - intros (Hurl & Hlen & Hdig). injection Hurl as Hname _.
    rewrite <- Hname, !Happ. auto.
Qed.

End Names.

(** ** The timestamps a listing returns *)

Lemma string_leb_trans (a b c : string) :
  String.leb a b = true -> String.leb b c = true -> String.leb a c = true.
Proof.
  unfold String.leb. revert b c.
  induction a as [| x a IH]; intros [| y b] [| z c]; simpl; try congruence.
  unfold Ascii.compare.
  destruct (N.compare_spec (N_of_ascii x) (N_of_ascii y)) as [Hxy | Hxy | Hxy];
    destruct (N.compare_spec (N_of_ascii y) (N_of_ascii z)) as [Hyz | Hyz | Hyz];
    try congruence.
  - rewrite Hxy, Hyz, N.compare_refl. apply IH.
  - rewrite Hxy. intros _ _. rewrite (proj2 (N.compare_lt_iff _ _) Hyz). reflexivity.
  - rewrite <- Hyz. intros _ _. rewrite (proj2 (N.compare_lt_iff _ _) Hxy). reflexivity.
  - intros _ _. rewrite (proj2 (N.compare_lt_iff _ _) (N.lt_trans _ _ _ Hxy Hyz)). reflexivity.
Qed.

Lemma insertString_perm x l : insertString x l ≡ₚ x :: l.
Proof.
  induction l as [| y l IH]; [reflexivity |].
  cbn. destruct (String.leb x y); [reflexivity |].
  rewrite IH. apply Permutation_swap.
Qed.

Lemma sortStrings_perm l : sortStrings l ≡ₚ l.
Proof.
  induction l as [| x l IH]; [reflexivity |].
  cbn. rewrite insertString_perm. f_equiv. exact IH.
Qed.

Lemma insertString_sorted x l :
  StronglySorted (fun a b => notOlder b a) l ->
  StronglySorted (fun a b => notOlder b a) (insertString x l).
Proof.
  unfold notOlder. induction 1 as [| y l Hs IH Hall]; cbn.
  - repeat constructor.
  - destruct (String.leb x y) eqn:Hxy.
    + constructor; [constructor; assumption |].
      constructor; [exact Hxy |].
      eapply Forall_impl; [exact Hall |]. cbn. intros z Hyz.
      exact (string_leb_trans _ _ _ Hxy Hyz).
    + constructor; [exact IH |].
      rewrite insertString_perm. constructor; [| exact Hall].
      destruct (String.leb_total x y) as [H | H]; [congruence | exact H].
Qed.

Lemma sortStrings_sorted l : StronglySorted (fun a b => notOlder b a) (sortStrings l).
Proof.
  induction l as [| x l IH]; [constructor |].
  cbn. apply insertString_sorted. exact IH.
Qed.

Lemma elem_of_rev {A : Type} (x : A) (l : list A) : x ∈ rev l <-> x ∈ l.
Proof. rewrite !list_elem_of_In. symmetry. apply in_rev. Qed.

Lemma length_omap_le {A B : Type} (f : A -> option B) (l : list A) :
  (length (omap f l) <= length l)%nat.
Proof.
  induction l as [| x l IH]; cbn; [lia |].
  destruct (f x); cbn; lia.
Qed.

Lemma StronglySorted_rev {A : Type} (R : relation A) (l : list A) :
  StronglySorted R l -> StronglySorted (fun a b => R b a) (rev l).
Proof.
  induction 1 as [| x l Hs IH Hall]; cbn; [constructor |].
  apply StronglySorted_app_2; [| exact IH | repeat constructor].
  intros x1 x2 H1 H2. apply list_elem_of_singleton in H2 as ->.
  rewrite Forall_forall in Hall. apply Hall.
  exact (proj1 (elem_of_rev _ _) H1).
Qed.

Lemma slice0_take {A : Type} (l : list A) (n : Z) :
  exists k, slice0 l n = take k l
            /\ (0 <= n -> k = Z.to_nat n)
            /\ (n < 0 -> k = (length l - Z.to_nat (- n))%nat).
Proof.
  unfold slice0. destruct (Z.leb_spec 0 n).
  - exists (Z.to_nat n). split; [reflexivity |]. split; [reflexivity | lia].
  - exists (Z.to_nat (Z.of_nat (length l) + n)). split; [reflexivity |]. split; lia.
Qed.

(** The timestamps of the listed files that match, before they are put in
    order and cut. *)
Lemma elem_of_matches radarId suffix (items : list ListItem) ts :
  ts ∈ omap (fun item => matchTimestamp radarId suffix (name item))
         (filter (fun item => type item = "-"%string
                              /\ is_Some (matchTimestamp radarId suffix (name item))) items)
  <-> exists item, item ∈ items /\ type item = "-"%string
                   /\ matchTimestamp radarId suffix (name item) = Some ts.
Proof.
  rewrite list_elem_of_omap. split.
  - intros (item & Hin & Hm). apply list_elem_of_filter in Hin as [[Ht _] Hin]. eauto.
  - intros (item & Hin & Ht & Hm). exists item. split; [| exact Hm].
    apply list_elem_of_filter. rewrite Hm. eauto.
Qed.

(** X16. What a listing returns: timestamps in descending order, newest
    first; each is the twelve digits in the name of a listed plain file of
    the radar and resolution asked for; a matching file whose timestamp was
    cut off is not newer than any that was kept; and with a limit that is
    not negative at most that many are returned. *)
Theorem listing_keeps_the_newest radarId suffix items maxResults :
  let result := extractTimestamps radarId suffix items maxResults in
  StronglySorted notOlder result
  /\ (forall ts, ts ∈ result ->
        exists item,
          item ∈ items /\ type item = "-"%string
          /\ name item = (radarId +:+ suffix +:+ ".T.") +:+ ts +:+ ".png"
          /\ String.length ts = 12%nat /\ allDigits ts = true)
  /\ (forall item ts,
        item ∈ items -> type item = "-"%string ->
        matchTimestamp radarId suffix (name item) = Some ts ->
        ts ∈ result \/ forall kept, kept ∈ result -> notOlder kept ts)
  /\ (0 <= maxResults -> Z.of_nat (length result) <= maxResults).
Proof.
  cbv zeta. unfold extractTimestamps.
  set (matches := omap _ (filter _ items)).
  set (newestFirst := rev (sortStrings matches)).
  assert (Hsorted : StronglySorted notOlder newestFirst).
  { apply (StronglySorted_rev (fun a b => notOlder b a)). apply sortStrings_sorted. }
  assert (Hmem : forall ts, ts ∈ newestFirst <-> ts ∈ matches).
  { intros ts. unfold newestFirst. rewrite elem_of_rev, sortStrings_perm. reflexivity. }
  destruct (slice0_take newestFirst maxResults) as (k & -> & Hpos & _).
  pose proof (take_drop k newestFirst) as Hsplit.
  split; [| split; [| split]].
  - rewrite <- Hsplit in Hsorted. exact (StronglySorted_app_1_l _ _ _ Hsorted).
  - intros ts Hin.
    assert (Hin' : ts ∈ newestFirst) by (rewrite <- Hsplit; apply elem_of_app; auto).
    apply Hmem, elem_of_matches in Hin' as (item & Hitem & Ht & Hm).
    apply matchTimestamp_spec in Hm as (Hname & Hlen & Hdig). eauto 8.
  - intros item ts Hitem Ht Hm.
    assert (Hin : ts ∈ newestFirst) by (apply Hmem, elem_of_matches; eauto).
    rewrite <- Hsplit in Hin. apply elem_of_app in Hin as [Hin | Hin]; [left; exact Hin |].
    right. intros kept Hkept. rewrite <- Hsplit in Hsorted.
    exact (StronglySorted_app_1_elem_of _ _ _ _ _ Hsorted Hkept Hin).
  - intros Hmax. rewrite (Hpos Hmax), length_take. lia.
Qed.

(** X17. A limit that is negative is not refused and does not empty the
    answer: it drops that many of the oldest timestamps and returns all the
    others, newest first. *)
Theorem negative_limit_drops_the_oldest radarId suffix items maxResults :
  maxResults < 0 ->
  let all := extractTimestamps radarId suffix items (Z.of_nat (length items)) in
  (forall item ts,
     item ∈ items -> type item = "-"%string ->
     matchTimestamp radarId suffix (name item) = Some ts -> ts ∈ all)
  /\ extractTimestamps radarId suffix items maxResults
     = take (length all - Z.to_nat (- maxResults)) all.
Proof.
  intros Hneg. cbv zeta. unfold extractTimestamps.
  set (matches := omap _ (filter _ items)).
  set (newestFirst := rev (sortStrings matches)).
  assert (Hlen : (length newestFirst <= length items)%nat).
  { unfold newestFirst. rewrite length_rev, sortStrings_perm. unfold matches.
    etransitivity; [apply length_omap_le |]. apply length_filter. }
  assert (Hall : slice0 newestFirst (Z.of_nat (length items)) = newestFirst).
  { unfold slice0. destruct (Z.leb_spec 0 (Z.of_nat (length items))); [| lia].
    apply take_ge. lia. }
  rewrite Hall. split.
  - intros item ts Hitem Ht Hm. unfold newestFirst.
    rewrite elem_of_rev, sortStrings_perm. apply elem_of_matches. eauto.
  - destruct (slice0_take newestFirst maxResults) as (k & -> & _ & Hk).
    rewrite (Hk Hneg). reflexivity.
Qed.

(** ** Timestamps that parse *)

Lemma isDigit_digit_of (c : ascii) :
  isDigit c = true -> exists v, digit_of c = Some v /\ 0 <= v <= 9.
Proof.
  unfold isDigit. intros H. apply bool_decide_eq_true in H as [v Hv].
  exists v. split; [exact Hv |].
  unfold digit_of in Hv.
  destruct (Z.leb_spec 48 (Z.of_N (N_of_ascii c))); [| discriminate].
  destruct (Z.leb_spec (Z.of_N (N_of_ascii c)) 57); [| discriminate].
  cbn in Hv. injection Hv as <-. lia.
Qed.

Lemma parseDigits_value (s : string) :
  allDigits s = true ->
  exists w,
    0 <= w < 10 ^ Z.of_nat (String.length s)
    /\ (forall a, parseDigits s (Some a) = Some (a * 10 ^ Z.of_nat (String.length s) + w))
    /\ (s <> ""%string -> parseInt s = Some w).
Proof.
  induction s as [| c s IH]; intros Hd.
  - exists 0. split; [cbn; lia |]. split; [| congruence].
    intros a. cbn. f_equal. lia.
  - simpl in Hd. apply andb_true_iff in Hd as [Hc Hs].
    destruct (isDigit_digit_of c Hc) as (v & Hv & Hrange).
    destruct (IH Hs) as (w & Hw & Hacc & _).
    assert (Hpow : 10 ^ Z.of_nat (String.length (String c s))
                   = 10 * 10 ^ Z.of_nat (String.length s)).
    { cbn [String.length]. rewrite Nat2Z.inj_succ, Z.pow_succ_r by lia. reflexivity. }
    exists (v * 10 ^ Z.of_nat (String.length s) + w).
    split; [rewrite Hpow; nia |]. split.
    + intros a. cbn [parseDigits]. rewrite Hv, Hacc, Hpow. f_equal. ring.
    + intros _. unfold parseInt. cbn [parseDigits]. rewrite Hv. apply Hacc.
Qed.

Lemma parseDigits_append (s1 s2 : string) :
  allDigits s1 = true ->
  forall acc, parseDigits (s1 +:+ s2) acc = parseDigits s2 (parseDigits s1 acc).
Proof.
  induction s1 as [| c s1 IH]; intros Hd acc; [reflexivity |].
  simpl in Hd. apply andb_true_iff in Hd as [Hc Hs].
  destruct (isDigit_digit_of c Hc) as (v & Hv & _).
  change (String c s1 +:+ s2) with (String c (s1 +:+ s2)).
  cbn [parseDigits]. rewrite Hv. apply IH. exact Hs.
Qed.

Section Timestamps.

Context {Buffer : Type} `{host : Host Buffer}.

(** X18. Every timestamp the routes let through, twelve digits, parses:
    [parseTimestamp] is a date, never [NaN], built from the five groups of
    digits read as decimal numbers, with the month moved down by one.  The
    groups are taken as they are: no range is checked. *)
Theorem twelve_digits_always_parse (timestamp : string) :
  String.length timestamp = 12%nat ->
  allDigits timestamp = true ->
  exists year month day hour minute,
    parseTimestamp timestamp = Some (Date_getTime year (month - 1) day hour minute)
    /\ 0 <= year <= 9999 /\ 0 <= month <= 99 /\ 0 <= day <= 99
    /\ 0 <= hour <= 99 /\ 0 <= minute <= 99
    /\ parseInt timestamp
       = Some ((((year * 100 + month) * 100 + day) * 100 + hour) * 100 + minute).
Proof.
  intros Hlen Hd.
  set (f1 := String.substring 0 4 timestamp).
  set (f2 := String.substring 4 2 timestamp).
  set (f3 := String.substring 6 2 timestamp).
  set (f4 := String.substring 8 2 timestamp).
  set (f5 := String.substring 10 2 timestamp).
  assert (Hsplit : timestamp = f1 +:+ f2 +:+ f3 +:+ f4 +:+ f5).
  { etransitivity; [apply (substring_split timestamp 4 8); lia |]. fold f1. f_equal.
    etransitivity; [apply (substring_add timestamp 4 2 6); lia |]. fold f2. f_equal.
    etransitivity; [apply (substring_add timestamp 6 2 4); lia |]. fold f3. f_equal.
    apply (substring_add timestamp 8 2 2). lia. }
  assert (H1 : allDigits f1 = true) by (apply allDigits_substring; exact Hd).
  assert (H2 : allDigits f2 = true) by (apply allDigits_substring; exact Hd).
  assert (H3 : allDigits f3 = true) by (apply allDigits_substring; exact Hd).
  assert (H4 : allDigits f4 = true) by (apply allDigits_substring; exact Hd).
  assert (H5 : allDigits f5 = true) by (apply allDigits_substring; exact Hd).
  assert (L1 : String.length f1 = 4%nat) by (apply substring_length; lia).
  assert (L2 : String.length f2 = 2%nat) by (apply substring_length; lia).
  assert (L3 : String.length f3 = 2%nat) by (apply substring_length; lia).
  assert (L4 : String.length f4 = 2%nat) by (apply substring_length; lia).
  assert (L5 : String.length f5 = 2%nat) by (apply substring_length; lia).
  destruct (parseDigits_value f1 H1) as (year & By & _ & Py).
  destruct (parseDigits_value f2 H2) as (month & Bm & Am & Pm).
  destruct (parseDigits_value f3 H3) as (day & Bd & Ad & Pd).
  destruct (parseDigits_value f4 H4) as (hour & Bh & Ah & Ph).
  destruct (parseDigits_value f5 H5) as (minute & Bi & Ai & Pi).
  rewrite L1 in By. rewrite L2 in Bm, Am. rewrite L3 in Bd, Ad.
  rewrite L4 in Bh, Ah. rewrite L5 in Bi, Ai.
  change (10 ^ Z.of_nat 4) with 10000 in By.
  change (10 ^ Z.of_nat 2) with 100 in Bm, Am, Bd, Ad, Bh, Ah, Bi, Ai.
  assert (N : forall f n, String.length f = S n -> f <> ""%string)
    by (intros f n Hf ->; discriminate).
  specialize (Py (N _ _ L1)). specialize (Pm (N _ _ L2)). specialize (Pd (N _ _ L3)).
  specialize (Ph (N _ _ L4)). specialize (Pi (N _ _ L5)).
  exists year, month, day, hour, minute.
  split; [| repeat (split; [lia |])].
  - unfold parseTimestamp, substring. cbn [Nat.sub].
    fold f1 f2 f3 f4 f5. rewrite Py, Pm, Pd, Ph, Pi. reflexivity.
  - rewrite Hsplit at 1. unfold parseInt.
    rewrite (parseDigits_append f1 _ H1). fold (parseInt f1). rewrite Py.
    rewrite (parseDigits_append f2 _ H2), Am.
    rewrite (parseDigits_append f3 _ H3), Ad.
    rewrite (parseDigits_append f4 _ H4), Ah.
    rewrite Ai. reflexivity.
Qed.

End Timestamps.

(** ** More on the sweeps *)

Section SweepsFrame.

Context {Buffer : Type} `{host : Host Buffer}.

Abbreviation Disk := (gmap string (File Buffer)).

Lemma stat_Some flt (d : Disk) name stats :
  fs_stat flt d name = Some stats ->
  flt Stat name = false
  /\ exists f, d !! name = Some f /\ st_mtimeMs stats = mtimeMs f
               /\ st_size stats = Buffer_length (content f).
Proof.
  unfold fs_stat. destruct (flt Stat name); [discriminate |].
  destruct (d !! name) as [f |]; [| discriminate].
  cbn. intros [= <-]. eauto.
Qed.

Lemma unlink_Some flt (d d' : Disk) name :
  fs_unlink flt d name = Some d' ->
  flt Unlink name = false /\ is_Some (d !! name) /\ d' = delete name d.
Proof.
  unfold fs_unlink. destruct (flt Unlink name); [discriminate |].
  destruct (d !! name) as [f |]; [| discriminate].
  intros [= <-]. eauto.
Qed.

Lemma cleanupFiles_removes_only flt now files :
  forall (d : Disk) del freed name,
    let s := cleanupFiles flt now files d del freed in
    swept s !! name = d !! name
    \/ (swept s !! name = None
        /\ name ∈ files /\ isObject name = true
        /\ exists f, d !! name = Some f /\ DISK_CACHE_TTL * 1000 < now - mtimeMs f).
Proof.
  induction files as [| file files IH]; intros d del freed name; cbn [cleanupFiles];
    [left; reflexivity |].
  assert (Hlater : forall d' del' freed',
            d' = d ->
            let s := cleanupFiles flt now files d' del' freed' in
            swept s !! name = d !! name
            \/ (swept s !! name = None
                /\ name ∈ file :: files /\ isObject name = true
                /\ exists f, d !! name = Some f /\ DISK_CACHE_TTL * 1000 < now - mtimeMs f)).
  { intros d' del' freed' ->. destruct (IH d del' freed' name) as [H | (H & Hin & Hrest)];
      [left; exact H | right]. split; [exact H |]. split; [right; exact Hin | exact Hrest]. }
  fold (isObject file). destruct (isObject file) eqn:Hobj; cbn [negb]; [| apply Hlater; reflexivity].
  destruct (fs_stat flt d file) as [stats |] eqn:Hstat; [| left; reflexivity].
  apply stat_Some in Hstat as (_ & f & Hf & Hmt & _).
  rewrite ttl_lt_seconds, Hmt.
  destruct (Z.ltb_spec (DISK_CACHE_TTL * 1000) (now - mtimeMs f)) as [Hexp |];
    [| apply Hlater; reflexivity].
  destruct (fs_unlink flt d file) as [d' |] eqn:Hun; [| left; reflexivity].
  apply unlink_Some in Hun as (_ & _ & ->).
  destruct (decide (name = file)) as [-> | Hne].
  - right.
    assert (Hgone : swept (cleanupFiles flt now files (delete file d) (del + 1)
                             (freed + st_size stats)) !! file = None).
    { destruct (IH (delete file d) (del + 1) (freed + st_size stats) file)
        as [H | (H & _)]; [rewrite H; apply lookup_delete_eq | exact H]. }
    split; [exact Hgone |]. split; [left |]. split; [exact Hobj |]. eauto.
  - destruct (IH (delete file d) (del + 1) (freed + st_size stats) name)
      as [H | (H & Hin & Hobj' & f' & Hf' & Hexp')].
    + left. rewrite H. apply lookup_delete_ne. congruence.
    + right. split; [exact H |]. split; [right; exact Hin |]. split; [exact Hobj' |].
      exists f'. rewrite lookup_delete_ne in Hf' by congruence. auto.
Qed.

(** X20. Whatever fails and whatever the listing holds, the TTL sweep
    removes nothing but listed [.png] files older than DISK_CACHE_TTL: every
    other file, and every object not past its time to live, holds after the
    run what it held before.  The sweep adds and changes no file. *)
Theorem ttl_sweep_removes_only_expired_objects flt files (d : Disk) now name :
  let s := cleanupCache flt files d now in
  swept s !! name = d !! name
  \/ (swept s !! name = None
      /\ name ∈ files /\ isObject name = true
      /\ exists f, d !! name = Some f /\ DISK_CACHE_TTL * 1000 < now - mtimeMs f).
Proof. apply cleanupFiles_removes_only. Qed.

(** X19. On a directory listed in full and with nothing failing, the TTL sweep
    runs to its end and leaves exactly the files that are not objects and
    the objects whose file is at most DISK_CACHE_TTL old: an object is gone
    after the run just when its age exceeded DISK_CACHE_TTL. *)
Theorem ttl_sweep_leaves_exactly_the_fresh files (d : Disk) now :
  lists files d ->
  caught (cleanupCache no_faults files d now) = None
  /\ forall name,
       swept (cleanupCache no_faults files d now) !! name
       = match d !! name with
         | Some f =>
             if isObject name && (DISK_CACHE_TTL * 1000 <? now - mtimeMs f)
             then None else Some f
         | None => None
         end.
Proof.
  intros [Hnd Hdom]. unfold cleanupCache.
  destruct (cleanupFiles_no_faults now files d 0 0 Hnd) as [Hc Hlook].
  { intros g Hg. apply Hdom. exact Hg. }
  split; [exact Hc |]. intros name. rewrite Hlook.
  destruct (d !! name) as [f |] eqn:Hf; [| reflexivity].
  rewrite bool_decide_eq_true_2 by (apply Hdom; eauto). reflexivity.
Qed.

Lemma cleanupFiles_nothing_expired now files :
  forall (d : Disk) del freed,
    (forall name, name ∈ files -> is_Some (d !! name)) ->
    (forall name f, d !! name = Some f -> isObject name = true ->
                    now - mtimeMs f <= DISK_CACHE_TTL * 1000) ->
    cleanupFiles no_faults now files d del freed = mkSweep d del freed None.
Proof.
  induction files as [| file files IH]; intros d del freed Hall Hfresh; cbn [cleanupFiles];
    [reflexivity |].
  assert (Hrest : forall name, name ∈ files -> is_Some (d !! name))
    by (intros name Hin; apply Hall; right; exact Hin).
  fold (isObject file). destruct (isObject file) eqn:Hobj; cbn [negb];
    [| apply IH; assumption].
  destruct (Hall file) as [f Hf]; [left |].
  rewrite stat_no_faults, Hf. cbn [fmap option_fmap option_map st_mtimeMs].
  rewrite ttl_lt_seconds.
  pose proof (Hfresh file f Hf Hobj).
  destruct (Z.ltb_spec (DISK_CACHE_TTL * 1000) (now - mtimeMs f)); [lia |].
  apply IH; assumption.
Qed.

(** X21. The TTL sweep is idempotent: run again at the same instant on the
    directory it left, listed in full, it finds nothing to delete. *)
Theorem ttl_sweep_twice_is_once files files' (d : Disk) now :
  lists files d ->
  lists files' (swept (cleanupCache no_faults files d now)) ->
  cleanupCache no_faults files' (swept (cleanupCache no_faults files d now)) now
  = mkSweep (swept (cleanupCache no_faults files d now)) 0 0 None.
Proof.
  intros Hl [_ Hdom']. unfold cleanupCache at 1.
  apply cleanupFiles_nothing_expired.
  - intros name Hin. apply Hdom'. exact Hin.
  - intros name f Hf Hobj.
    destruct (d !! name) as [f0 |] eqn:Hf0.
    + rewrite (ttl_sweep_removes_older_objects files d now name f0 Hl Hf0), Hobj in Hf.
      cbn [andb] in Hf.
      destruct (Z.ltb_spec (DISK_CACHE_TTL * 1000) (now - mtimeMs f0)); [discriminate |].
      injection Hf as <-. lia.
    + destruct (cleanupFiles_removes_only no_faults now files d 0 0 name)
        as [H | (H & _)]; unfold cleanupCache in Hf; rewrite H in Hf; congruence.
Qed.

Lemma scanFiles_entries flt (d : Disk) files :
  forall totalSize stats total' stats',
    scanFiles flt d files totalSize stats = inr (total', stats') ->
    forall e, e ∈ stats' ->
      e ∈ stats \/ (path e ∈ files /\ isObject (path e) = true /\ is_Some (d !! path e)).
Proof.
  induction files as [| file files IH]; intros totalSize stats total' stats'; cbn [scanFiles].
  - intros [= _ <-] e He. left. exact He.
  - fold (isObject file). destruct (isObject file) eqn:Hobj; cbn [negb].
    + destruct (fs_stat flt d file) as [st |] eqn:Hstat; [| discriminate].
      intros Hscan e He. apply stat_Some in Hstat as (_ & f & Hf & _).
      destruct (IH _ _ _ _ Hscan e He) as [Hin | (Hin & Ho & Hs)].
      * apply elem_of_app in Hin as [Hin | Hin]; [left; exact Hin |].
        apply list_elem_of_singleton in Hin as ->. cbn. right.
        split; [left |]. split; [exact Hobj | eauto].
      * right. split; [right; exact Hin | auto].
    + intros Hscan e He. destruct (IH _ _ _ _ Hscan e He) as [Hin | (Hin & Hrest)];
        [left; exact Hin | right]. split; [right; exact Hin | exact Hrest].
Qed.

Lemma evictFiles_removes_only flt totalSize targetSize l :
  forall (d : Disk) freed del name,
    let s := evictFiles flt totalSize targetSize l d freed del in
    swept s !! name = d !! name
    \/ (swept s !! name = None /\ name ∈ path <$> l).
Proof.
  induction l as [| e l IH]; intros d freed del name; cbn [evictFiles]; [left; reflexivity |].
  destruct (Qle_bool _ _); [left; reflexivity |].
  destruct (fs_unlink flt d (path e)) as [d' |] eqn:Hun; [| left; reflexivity].
  apply unlink_Some in Hun as (_ & _ & ->).
  destruct (IH (delete (path e) d) (freed + size_ e) (del + 1) name) as [H | [H Hin]].
  - destruct (decide (name = path e)) as [-> | Hne].
    + right. split; [rewrite H; apply lookup_delete_eq | rewrite fmap_cons; left].
    + left. rewrite H. apply lookup_delete_ne. congruence.
  - right. split; [exact H | rewrite fmap_cons; right; exact Hin].
Qed.

(** X22. Whatever fails and whatever the listing holds, the size sweep
    removes nothing but listed [.png] files, and only in a run whose scan
    went through and counted more than MAX_CACHE_SIZE_MB; every other file
    holds after the run what it held before.  The sweep adds and changes no
    file. *)
Theorem size_sweep_removes_only_listed_objects flt files (d : Disk) name :
  let s := checkCacheSize flt files d in
  swept s !! name = d !! name
  \/ (swept s !! name = None
      /\ name ∈ files /\ isObject name = true /\ is_Some (d !! name)
      /\ exists totalSize fileStats,
           scanFiles flt d files 0 [] = inr (totalSize, fileStats)
           /\ MAX_CACHE_SIZE_MB * 1048576 < totalSize).
Proof.
  cbv zeta. unfold checkCacheSize.
  destruct (scanFiles flt d files 0 []) as [file | [totalSize fileStats]] eqn:Hscan;
    [left; reflexivity |].
  rewrite over_budget.
  destruct (Z.ltb_spec (MAX_CACHE_SIZE_MB * 1048576) totalSize) as [Hover |];
    [| left; reflexivity].
  destruct (evictFiles_removes_only flt totalSize
              (inject_Z MAX_CACHE_SIZE_MB * 0.8 * 1024 * 1024)%Q
              (sortByMtime fileStats) d 0 0 name) as [H | [H Hin]]; [left; exact H |].
  right. split; [exact H |].
  rewrite sortByMtime_perm in Hin. apply list_elem_of_fmap in Hin as (e & -> & He).
  destruct (scanFiles_entries _ _ _ _ _ _ _ Hscan e He) as [Hnil | (Hin & Hobj & Hsome)].
  - exfalso. exact (not_elem_of_nil _ Hnil).
  - repeat (split; [assumption |]). eauto.
Qed.

End SweepsFrame.

(** ** The listing of the stand-alone server *)

Section LegacyListingFacts.

Context {Buffer : Type}.

Lemma legacyCacheKey_inj (a b : string) :
  LegacyListing.timestampsCacheKey a = LegacyListing.timestampsCacheKey b -> a = b.
Proof. unfold LegacyListing.timestampsCacheKey. apply String.app_inj. Qed.

Lemma legacy_invariant_later (calls : LegacyListing.Request (Buffer := Buffer) -> Prop) T T' st :
  T <= T' ->
  LegacyListing.stampedRadarsWereListed calls T st ->
  LegacyListing.stampedRadarsWereListed calls T' st.
Proof.
  intros HT Hinv radarId last Hl.
  destruct (Hinv radarId last Hl) as (q & Hq & Hr & Hs & [Hset | [Hnone Hpast]]);
    exists q; repeat (split; [assumption |]); [left; exact Hset | right].
  split; [exact Hnone | lia].
Qed.

(** The lookup of a call deletes only a set whose time has passed. *)
Lemma legacy_invariant_get (calls : LegacyListing.Request (Buffer := Buffer) -> Prop)
    T st now radarId :
  T <= now ->
  LegacyListing.stampedRadarsWereListed calls T st ->
  LegacyListing.stampedRadarsWereListed calls now
    (metaCache_get st now (LegacyListing.timestampsCacheKey radarId)).2.
Proof.
  intros HT Hinv id last Hl. rewrite metaCache_get_limiter in Hl.
  destruct (Hinv id last Hl) as (q & Hq & Hr & Hs & Hcase).
  exists q. repeat (split; [assumption |]).
  destruct (decide (id = radarId)) as [-> | Hne].
  - destruct (metaCache_get_state st now (LegacyListing.timestampsCacheKey radarId))
      as [-> | (entry & Hk & Hnz & Hexp & ->)].
    + destruct Hcase as [Hset | [Hnone Hpast]]; [left; exact Hset | right].
      split; [exact Hnone | lia].
    + right. cbn. split; [apply lookup_delete_eq |].
      destruct Hcase as [[ts Hset] | [Hnone _]]; [| congruence].
      rewrite Hset in Hk. injection Hk as <-. exact Hexp.
  - rewrite metaCache_get_other
      by (intros Heq; apply Hne; exact (legacyCacheKey_inj _ _ Heq)).
    destruct Hcase as [Hset | [Hnone Hpast]]; [left; exact Hset | right].
    split; [exact Hnone | lia].
Qed.

(** So does the periodic check. *)
Lemma legacy_invariant_check (calls : LegacyListing.Request (Buffer := Buffer) -> Prop)
    T st now :
  T <= now ->
  LegacyListing.stampedRadarsWereListed calls T st ->
  LegacyListing.stampedRadarsWereListed calls now (metaCache_checkData st now).
Proof.
  intros HT Hinv id last Hl. cbn in Hl.
  destruct (Hinv id last Hl) as (q & Hq & Hr & Hs & Hcase).
  exists q. repeat (split; [assumption |]). cbn [metaCache_checkData metaCache].
  destruct Hcase as [[ts Hset] | [Hnone Hpast]].
  - set (E := LegacyListing.setAt q + LegacyListing.TIMESTAMP_REFRESH_INTERVAL) in *.
    destruct (negb (E =? 0) && (E <? now)) eqn:Hexp.
    + right. split.
      * apply map_lookup_filter_None_2. right. intros entry Hentry Hkeep.
        rewrite Hset in Hentry. injection Hentry as <-. cbn in Hkeep. congruence.
      * apply andb_true_iff in Hexp as [_ Hexp]. apply Z.ltb_lt in Hexp. exact Hexp.
    + left. exists ts. apply map_lookup_filter_Some_2; [exact Hset | exact Hexp].
  - right. split; [| lia]. apply map_lookup_filter_None_2. left. exact Hnone.
Qed.

(** A listing that goes through stamps its radar and caches its set. *)
Lemma legacy_invariant_call (calls : LegacyListing.Request (Buffer := Buffer) -> Prop)
    T st (q : LegacyListing.Request (Buffer := Buffer)) :
  calls q ->
  T <= LegacyListing.time q ->
  LegacyListing.time q <= LegacyListing.stampAt q ->
  LegacyListing.stampedRadarsWereListed calls T st ->
  LegacyListing.stampedRadarsWereListed calls (LegacyListing.stampAt q)
    (meta_after
       (LegacyListing.listAvailableTimestamps (LegacyListing.origin q) st
          (LegacyListing.time q) (LegacyListing.setAt q) (LegacyListing.stampAt q)
          (LegacyListing.radar q) (LegacyListing.limit q) (LegacyListing.forced q))).
Proof.
  intros Hq HT Hlater Hinv.
  pose proof (legacy_invariant_get calls T st (LegacyListing.time q) (LegacyListing.radar q)
                HT Hinv) as Hgot.
  apply (legacy_invariant_later _ _ (LegacyListing.stampAt q) _ Hlater) in Hgot.
  unfold LegacyListing.listAvailableTimestamps.
  destruct (metaCache_get st (LegacyListing.time q)
              (LegacyListing.timestampsCacheKey (LegacyListing.radar q))) as [cached st'].
  cbn [snd] in Hgot.
  assert (Hstep : forall ts,
            LegacyListing.stampedRadarsWereListed calls (LegacyListing.stampAt q)
              (LegacyListing.updateTimestampRefreshTime
                 (LegacyListing.metaCache_set st' (LegacyListing.setAt q)
                    (LegacyListing.timestampsCacheKey (LegacyListing.radar q)) ts)
                 (LegacyListing.stampAt q) (LegacyListing.radar q))).
  { intros ts id last. cbn.
    destruct (decide (id = LegacyListing.radar q)) as [-> | Hne].
    - rewrite lookup_insert_eq. intros [= <-]. exists q.
      repeat (split; [auto |]). left. exists ts. rewrite lookup_insert_eq. reflexivity.
    - rewrite lookup_insert_ne by congruence. intros Hl.
      rewrite lookup_insert_ne
        by (intros Heq; apply Hne; symmetry; exact (legacyCacheKey_inj _ _ Heq)).
      exact (Hgot id last Hl). }
  repeat case_match; cbn [meta_after]; first [exact Hgot | apply Hstep].
Qed.

(** Where the limiter refuses, the set of the radar has gone and its stamp
    is less than an interval old. *)
Lemma legacy_refusal (calls : LegacyListing.Request (Buffer := Buffer) -> Prop)
    T st (q : LegacyListing.Request (Buffer := Buffer)) :
  LegacyListing.stampedRadarsWereListed calls T st ->
  T <= LegacyListing.time q ->
  LegacyListing.refused
    (LegacyListing.listAvailableTimestamps (LegacyListing.origin q) st
       (LegacyListing.time q) (LegacyListing.setAt q) (LegacyListing.stampAt q)
       (LegacyListing.radar q) (LegacyListing.limit q) (LegacyListing.forced q)) ->
  exists q',
    calls q' /\ LegacyListing.radar q' = LegacyListing.radar q
    /\ LegacyListing.setAt q' + LegacyListing.TIMESTAMP_REFRESH_INTERVAL < LegacyListing.time q
    /\ LegacyListing.time q < LegacyListing.stampAt q' + LegacyListing.TIMESTAMP_REFRESH_INTERVAL.
Proof.
  intros Hinv HT. unfold LegacyListing.refused, LegacyListing.listAvailableTimestamps.
  pose proof (metaCache_get_limiter st (LegacyListing.time q)
                (LegacyListing.timestampsCacheKey (LegacyListing.radar q))) as Hlim.
  assert (Hmiss : (metaCache_get st (LegacyListing.time q)
                     (LegacyListing.timestampsCacheKey (LegacyListing.radar q))).1 = None ->
                  forall entry,
                    metaCache st !! LegacyListing.timestampsCacheKey (LegacyListing.radar q)
                    = Some entry ->
                    t entry < LegacyListing.time q).
  { unfold metaCache_get. intros Hnone entry Hentry. rewrite Hentry in Hnone.
    destruct (negb (t entry =? 0) && (t entry <? LegacyListing.time q)) eqn:Hexp;
      [| discriminate].
    apply andb_true_iff in Hexp as [_ Hexp]. apply Z.ltb_lt. exact Hexp. }
  destruct (metaCache_get st (LegacyListing.time q)
              (LegacyListing.timestampsCacheKey (LegacyListing.radar q))) as [cached st'].
  cbn [fst snd] in *.
  destruct cached as [ts |].
  - destruct (LegacyListing.forced q); cbn [negb andb].
    + repeat case_match; cbn; intros [_ [=]].
    + cbn. intros [[e [=]] _].
  - destruct (negb (LegacyListing.forced q)
              && negb (LegacyListing.canRefreshTimestamps st' (LegacyListing.time q)
                         (LegacyListing.radar q))) eqn:Hblock;
      [| repeat case_match; cbn; intros [_ [=]]].
    intros _. apply andb_true_iff in Hblock as [_ Hcan]. apply negb_true_iff in Hcan.
    unfold LegacyListing.canRefreshTimestamps in Hcan. rewrite Hlim in Hcan.
    destruct (lastTimestampRefresh st !! LegacyListing.radar q) as [last |] eqn:Hl;
      [| discriminate].
    destruct (falsy (Some last)) eqn:Hf; [discriminate |].
    cbn [default from_option] in Hcan. unfold id in Hcan. apply Z.leb_gt in Hcan.
    destruct (Hinv _ last Hl) as (q' & Hq' & Hr & Hs & Hcase).
    exists q'. split; [exact Hq' |]. split; [exact Hr |]. split; [| lia].
    destruct Hcase as [[ts Hset] | [_ Hpast]]; [| lia].
    exact (Hmiss eq_refl _ Hset).
Qed.

(** X24. In the stand-alone server the cached set and the limiter entry of
    a radar are written by the same listing, one after the other, and the
    set lives exactly one interval.  From the empty state, through any run
    of requests and periodic checks of node-cache during which the clock
    does not go back, a request is refused by the limiter only within a
    window left by an earlier listing of the same radar: after the set that
    listing cached has expired (600 s after the clock reading of
    [metaCache.set]) and before the limiter opens (600 s after the reading
    of [updateTimestampRefreshTime]).  That listing read the clock at two
    different instants; where the two readings of every listing agree, no
    request is ever refused. *)
Theorem legacy_refusal_needs_a_gap (from : Z) (steps : list (LegacyListing.Step (Buffer := Buffer))) :
  LegacyListing.clockRuns from steps ->
  Forall (fun served =>
            LegacyListing.refused served.2 ->
            exists q',
              LegacyListing.Call q' ∈ steps
              /\ LegacyListing.radar q' = LegacyListing.radar served.1
              /\ LegacyListing.setAt q' + LegacyListing.TIMESTAMP_REFRESH_INTERVAL
                 < LegacyListing.time served.1
                 < LegacyListing.stampAt q' + LegacyListing.TIMESTAMP_REFRESH_INTERVAL
              /\ LegacyListing.setAt q' < LegacyListing.stampAt q')
         (LegacyListing.serve (mkMeta ∅ ∅) steps).
Proof.
  set (calls := fun q => LegacyListing.Call q ∈ steps).
  assert (Hgen : forall rest T st,
            (forall q, LegacyListing.Call q ∈ rest -> calls q) ->
            LegacyListing.clockRuns T rest ->
            LegacyListing.stampedRadarsWereListed calls T st ->
            Forall (fun served =>
                      LegacyListing.refused served.2 ->
                      exists q',
                        calls q'
                        /\ LegacyListing.radar q' = LegacyListing.radar served.1
                        /\ LegacyListing.setAt q' + LegacyListing.TIMESTAMP_REFRESH_INTERVAL
                           < LegacyListing.time served.1
                           < LegacyListing.stampAt q' + LegacyListing.TIMESTAMP_REFRESH_INTERVAL
                        /\ LegacyListing.setAt q' < LegacyListing.stampAt q')
                   (LegacyListing.serve st rest)).
  { induction rest as [| [q | now] rest IH]; intros T st Hcalls Hclock Hinv;
      cbn [LegacyListing.serve LegacyListing.clockRuns] in *; [constructor | |].
    - destruct Hclock as (HT & Hset & Hstamp & Hclock).
      assert (Hq : calls q) by (apply Hcalls; left).
      constructor.
      + cbn [fst snd]. intros Href.
        destruct (legacy_refusal calls T st q Hinv HT Href) as (q' & Hq' & Hr & Hlo & Hhi).
        exists q'. repeat (split; [assumption |]). lia.
      + apply (IH (LegacyListing.stampAt q)); [| exact Hclock |].
        * intros q0 Hq0. apply Hcalls. right. exact Hq0.
        * apply (legacy_invariant_call calls T); [exact Hq | exact HT | lia | exact Hinv].
    - destruct Hclock as (HT & Hclock).
      apply (IH now); [| exact Hclock |].
      + intros q0 Hq0. apply Hcalls. right. exact Hq0.
      + apply (legacy_invariant_check _ T); [exact HT | exact Hinv]. }
  intros Hclock. apply (Hgen steps from); [auto | exact Hclock |].
  intros id last Hl. cbn in Hl. rewrite lookup_empty in Hl. discriminate.
Qed.

End LegacyListingFacts.

(** ** More runs on the host in UTC *)

Section MoreScenarios.

#[local] Existing Instance utcHost.

Lemma getRadarImage_touches_own_file_only_witness :
  disk_after (getRadarImage no_faults steadyFtp fullStore (at1430 + 700000)
                "IDR023" "202410231430" 128)
  !! "IDR023_202410231330_128.png"%string
  = fullStore !! "IDR023_202410231330_128.png"%string.
Proof.
  apply getRadarImage_touches_own_file_only.
  intros H. vm_compute in H. discriminate H.
Defined.

Lemma cache_answer_is_the_stored_object_witness :
  getRadarImage no_faults steadyFtp {[image1430 := mkFile [(137, 1)] (at1430 + 500000)]}
    (at1430 + 550000) "IDR023" "202410231430" 128
  = mkGet (inr (mkImage [(137, 1)] true 50 (Some 550) 128))
      {[image1430 := mkFile [(137, 1)] (at1430 + 500000)]} 0 false.
Proof.
  apply (cache_answer_is_the_stored_object no_faults steadyFtp
           {[image1430 := mkFile [(137, 1)] (at1430 + 500000)]}
           (at1430 + 550000) "IDR023" "202410231430" 128
           (mkImage [(137, 1)] true 50 (Some 550) 128)).
  - vm_compute; reflexivity.
  - reflexivity.
Defined.

Lemma getRadarImage_error_sources_witness :
  exists buf,
    downloadFromFTP steadyFtp "IDR023" "202410231430" 128 = inr buf
    /\ mkError "ENOSPC: no space left on device, write" None
       = writeFile_error image1430 buf at1430.
Proof.
  destruct (getRadarImage_error_sources (writeFails image1430) steadyFtp ∅ at1430
              "IDR023" "202410231430" 128) as [Herr _].
  destruct (Herr (mkError "ENOSPC: no space left on device, write" None))
    as [(Hres & _) | [(_ & _ & Hdl) | (_ & _ & _ & Hwrite)]].
  - vm_compute; reflexivity.
  - vm_compute in Hres. discriminate Hres.
  - vm_compute in Hdl. discriminate Hdl.
  - exact Hwrite.
Defined.

Lemma answered_bytes_are_cached_witness :
  exists f,
    disk_after (getRadarImage no_faults steadyFtp ∅ (at1430 + 60000)
                  "IDR023" "202410231430" 128)
    !! imageCachePath "IDR023" "202410231430" 128 = Some f
    /\ content f = [(137, 1); (0, 4095)].
Proof.
  apply (answered_bytes_are_cached no_faults steadyFtp ∅ (at1430 + 60000)
           "IDR023" "202410231430" 128 (mkImage [(137, 1); (0, 4095)] false 0 (Some 60) 128)).
  vm_compute; reflexivity.
Defined.

Lemma ageing_current_image_is_always_downloaded_witness :
  downloads (getRadarImage no_faults steadyFtp
               {[image1430 := mkFile [(137, 1)] (at1430 + 899000)]}
               (at1430 + 900000) "IDR023" "202410231430" 128) = 1%nat
  /\ servedFromCache (getRadarImage no_faults steadyFtp
                        {[image1430 := mkFile [(137, 1)] (at1430 + 899000)]}
                        (at1430 + 900000) "IDR023" "202410231430" 128) = false.
Proof.
  apply (ageing_current_image_is_always_downloaded no_faults steadyFtp _ _ _ _ _ at1430).
  - vm_compute; reflexivity.
  - vm_compute; reflexivity.
  - split; vm_compute; [discriminate | reflexivity].
Defined.

Lemma Legacy_cache_answer_is_the_stored_object_witness :
  Legacy.getRadarImage no_faults steadyFtp
    {["IDR023_202410231430.png"%string := mkFile [(137, 1)] (at1430 + 500000)]}
    (at1430 + 700000) "IDR023" "202410231430"
  = Legacy.mkGet (inr (Legacy.mkImage [(137, 1)] true 200 (Some 700)))
      {["IDR023_202410231430.png"%string := mkFile [(137, 1)] (at1430 + 500000)]} 0.
Proof.
  apply (Legacy_cache_answer_is_the_stored_object no_faults steadyFtp
           {["IDR023_202410231430.png"%string := mkFile [(137, 1)] (at1430 + 500000)]}
           (at1430 + 700000) "IDR023" "202410231430"
           (Legacy.mkImage [(137, 1)] true 200 (Some 700))).
  - vm_compute; reflexivity.
  - reflexivity.
Defined.

Lemma listed_pair_is_served_from_cache_witness :
  let st1 := meta_after (listAvailableTimestamps steadyFtp (mkMeta ∅ ∅) at1430
                           "IDR023" 128 20 true) in
  listAvailableTimestamps brokenFtp st1 (at1430 + 600000) "IDR023" 128 5 false
  = mkList (inr (mkListing ["202410231430"; "202410231424"; "202410231418"]%string true
                   (getTimeUntilNextRefresh st1 (at1430 + 600000) "IDR023") None))
      st1 0.
Proof.
  apply (listed_pair_is_served_from_cache steadyFtp brokenFtp (mkMeta ∅ ∅) at1430
           "IDR023" 128 20 5 true
           (mkListing ["202410231430"; "202410231424"; "202410231418"]%string false 600 None)
           (at1430 + 600000)).
  - vm_compute; reflexivity.
  - reflexivity.
  - vm_compute; discriminate.
Defined.

(** The state two writes of one listing leave when the clock moves by two
    milliseconds between them, and a call a millisecond after the set has
    expired. *)
Lemma refusal_window_after_a_listing_witness :
  let st1 := updateTimestampRefreshTime
               (metaCache_set (mkMeta ∅ ∅) at1430 (timestampsCacheKey "IDR023" 128)
                  ["202410231430"]%string)
               (at1430 + 2) "IDR023" in
  let r := listAvailableTimestamps steadyFtp st1 (at1430 + 600001) "IDR023" 128 20 false in
  answer r = inl (rateLimitError (getTimeUntilNextRefresh st1 (at1430 + 600001) "IDR023")
                    "IDR023")
  /\ connections r = 0%nat.
Proof.
  cbv zeta.
  destruct (refusal_window_after_a_listing steadyFtp
              (updateTimestampRefreshTime
                 (metaCache_set (mkMeta ∅ ∅) at1430 (timestampsCacheKey "IDR023" 128)
                    ["202410231430"]%string)
                 (at1430 + 2) "IDR023")
              at1430 (at1430 + 2)
              "IDR023" 128 "2" ["202410231430"]%string 20 (at1430 + 600001))
    as (_ & Hrefused & _).
  - reflexivity.
  - vm_compute; reflexivity.
  - vm_compute; reflexivity.
  - vm_compute; discriminate.
  - vm_compute; discriminate.
  - apply Hrefused. split; vm_compute; reflexivity.
Defined.

Lemma listed_name_is_download_name_witness :
  matchTimestamp "IDR023" "2" "IDR0232.T.202410231430.png" = Some "202410231430"%string
  <-> buildRadarUrl "IDR023" "202410231430" 128
      = inr ("IDR0232.T.202410231430.png"%string,
             FTP_PATH +:+ "IDR0232.T.202410231430.png")
      /\ String.length "202410231430" = 12%nat /\ allDigits "202410231430" = true.
Proof. apply listed_name_is_download_name. reflexivity. Defined.

Lemma negative_limit_drops_the_oldest_witness :
  extractTimestamps "IDR023" "2" radarListing (-1)
  = take (length (extractTimestamps "IDR023" "2" radarListing
                    (Z.of_nat (length radarListing))) - Z.to_nat (- -1))
      (extractTimestamps "IDR023" "2" radarListing (Z.of_nat (length radarListing))).
Proof.
  apply (negative_limit_drops_the_oldest "IDR023" "2" radarListing (-1)). reflexivity.
Defined.

Lemma twelve_digits_always_parse_witness :
  exists year month day hour minute,
    parseTimestamp "202410231430" = Some (Date_getTime year (month - 1) day hour minute)
    /\ 0 <= year <= 9999 /\ 0 <= month <= 99 /\ 0 <= day <= 99
    /\ 0 <= hour <= 99 /\ 0 <= minute <= 99
    /\ parseInt "202410231430"
       = Some ((((year * 100 + month) * 100 + day) * 100 + hour) * 100 + minute).
Proof. apply twelve_digits_always_parse; reflexivity. Defined.

Lemma ttl_sweep_leaves_exactly_the_fresh_witness :
  let files := [image1430; "IDR023_202410231330_128.png"; "IDR023_202410231230_128.png"]%string in
  caught (cleanupCache no_faults files fullStore (at1430 + 82800001)) = None
  /\ forall name,
       swept (cleanupCache no_faults files fullStore (at1430 + 82800001)) !! name
       = match fullStore !! name with
         | Some f =>
             if isObject name && (DISK_CACHE_TTL * 1000 <? at1430 + 82800001 - mtimeMs f)
             then None else Some f
         | None => None
         end.
Proof.
  cbv zeta. apply ttl_sweep_leaves_exactly_the_fresh.
  apply lists_by_dom; [| vm_compute; reflexivity].
  apply (bool_decide_unpack _). vm_compute. exact I.
Defined.

Lemma download_errors_are_the_origins_witness :
  exists suffix,
    RESOLUTION_SUFFIX 128 = Some suffix
    /\ (connectFTP brokenFtp = inl (mkError "Connection reset" None)
        \/ ftp_get brokenFtp
             (FTP_PATH +:+ "IDR023" +:+ suffix +:+ ".T." +:+ "202410231430" +:+ ".png")
           = GetError (mkError "Connection reset" None)
        \/ exists chunks,
             ftp_get brokenFtp
               (FTP_PATH +:+ "IDR023" +:+ suffix +:+ ".T." +:+ "202410231430" +:+ ".png")
             = GetStream chunks (Some (mkError "Connection reset" None))).
Proof.
  apply (download_errors_are_the_origins brokenFtp "IDR023" "202410231430" 128).
  - reflexivity.
  - reflexivity.
Defined.

Lemma ttl_sweep_twice_is_once_witness :
  let files := [image1430; "IDR023_202410231330_128.png"; "IDR023_202410231230_128.png"]%string in
  let once := swept (cleanupCache no_faults files fullStore (at1430 + 82800001)) in
  cleanupCache no_faults [image1430] once (at1430 + 82800001) = mkSweep once 0 0 None.
Proof.
  cbv zeta.
  apply (ttl_sweep_twice_is_once
           [image1430; "IDR023_202410231330_128.png"; "IDR023_202410231230_128.png"]%string
           [image1430] fullStore (at1430 + 82800001)).
  - apply lists_by_dom; [| vm_compute; reflexivity].
    apply (bool_decide_unpack _). vm_compute. exact I.
  - apply lists_by_dom; [| vm_compute; reflexivity].
    apply (bool_decide_unpack _). vm_compute. exact I.
Defined.

(** A listing whose two writes read the clock two milliseconds apart, a
    periodic check, and a request in the window this leaves ten minutes
    later: the request is refused. *)
Lemma legacy_refusal_needs_a_gap_witness :
  let steps :=
    [ LegacyListing.Call (LegacyListing.mkRequest steadyFtp 1000 1000 1002 "IDR023" 20 false);
      LegacyListing.Check 121000;
      LegacyListing.Call (LegacyListing.mkRequest brokenFtp 601001 601001 601001
                            "IDR023" 20 false) ] in
  Exists (fun served => LegacyListing.refused served.2)
         (LegacyListing.serve (mkMeta ∅ ∅) steps)
  /\ Forall (fun served =>
               LegacyListing.refused served.2 ->
               exists q',
                 LegacyListing.Call q' ∈ steps
                 /\ LegacyListing.radar q' = LegacyListing.radar served.1
                 /\ LegacyListing.setAt q' + LegacyListing.TIMESTAMP_REFRESH_INTERVAL
                    < LegacyListing.time served.1
                    < LegacyListing.stampAt q' + LegacyListing.TIMESTAMP_REFRESH_INTERVAL
                 /\ LegacyListing.setAt q' < LegacyListing.stampAt q')
            (LegacyListing.serve (mkMeta ∅ ∅) steps).
Proof.
  cbv zeta. split.
  - apply Exists_cons_tl, Exists_cons_hd. split; [eexists |]; vm_compute; reflexivity.
  - apply (legacy_refusal_needs_a_gap 0). cbn. repeat split; lia.
Defined.

End MoreScenarios.
